(** * The Dynamixel hardware interface: control cycle, fault monitor and
      torque coordinator

    A shallow embedding of
    [src/dynamixel_hardware_interface/src/dynamixel_hardware_interface.cpp].

    The class [DynamixelHardware] becomes a record of its member variables
    and every member function a computation in a state monad over that
    record.  The driver object [dxl_comm_] (class [Dynamixel], not part of
    this file's source) is an abstract actuator link: an interface of
    operations on an unknown link state, so that every theorem holds for
    every behaviour of the bus.  What the C++ program leaves on the bus and
    on the log is kept in two ghost traces, [io_] and [logger_]. *)

From Stdlib Require Import ZArith NArith String.
From Stdlib Require Import Floats.PrimFloat Floats.SpecFloat Floats.FloatOps.
From Stdlib Require Uint63.
From stdpp Require Import base option list gmap strings.

#[local] Set Warnings "-inexact-float".

(** ** Enumerations *)

(** [enum DxlError]: the source names [OK] and [DLX_HARDWARE_ERROR]; every
    other enumerator is a failure reported by the link. *)
Module DxlError.
Inductive t := OK | DLX_HARDWARE_ERROR | LINK_FAIL (code : Z).

#[global] Instance eq_dec : EqDecision t.
Proof. solve_decision. Defined.
End DxlError.

(** [hardware_interface::return_type]. *)
Module return_type.
Inductive t := OK | ERROR.
End return_type.

(** [hardware_interface::CallbackReturn]. *)
Module CallbackReturn.
Inductive t := SUCCESS | FAILURE | ERROR.
End CallbackReturn.

(** Modelled from the spec: [enum DxlStatus] is declared in the header, which
    is not under src/; CommStatus is the enum {Ok, CommError, HardwareError,
    Rebooting}, under the names the source uses. *)
Inductive DxlStatus := DXL_OK | HW_ERROR | COMM_ERROR | REBOOTING.

(** Modelled from the spec: [enum DxlTorqueStatus], declared in the missing
    header; TorqueStatus is the enum {Enabled, Disabled, RequestedEnable,
    RequestedDisable}. *)
Inductive DxlTorqueStatus :=
  TORQUE_ENABLED | TORQUE_DISABLED | REQUESTED_TO_ENABLE | REQUESTED_TO_DISABLE.

#[global] Instance DxlStatus_eq_dec : EqDecision DxlStatus.
Proof. solve_decision. Defined.

#[global] Instance DxlTorqueStatus_eq_dec : EqDecision DxlTorqueStatus.
Proof. solve_decision. Defined.

(** ** Numbers

    A value slot is a C++ [double]: an IEEE 754 binary64 number, Rocq's
    primitive [float]. *)

(** [static_cast<uint8_t>] of a double (the assignment to [dxl_hw_err_[id]]):
    the value is truncated towards zero; when the truncated value does not fit
    the conversion is undefined in C++, here [None]. *)
Definition double_to_uint8 (d : float) : option Z :=
  match Prim2SF d with
  | S754_zero _ => Some 0%Z
  | S754_finite sign m e =>
      let t := if (0 <=? e)%Z then (Z.pos m * 2 ^ e)%Z
               else (Z.pos m / 2 ^ (- e))%Z in
      if sign then (if (t =? 0)%Z then Some 0%Z else None)
      else if (t <? 256)%Z then Some t else None
  | _ => None
  end.

(** A [uint32_t] stored into a double slot (exact: 32 bits fit the mantissa). *)
Definition uint32_to_double (data : Z) : float :=
  PrimFloat.of_uint63 (Uint63.of_Z (data mod 2 ^ 32)).

(** ** Handlers *)

(** [struct HandlerVarType]: two parallel vectors, the interface names and
    the value slots.  Each slot is a [std::shared_ptr<double>] made by its own
    [std::make_shared] call, so no two slots of the handler vectors alias and
    a slot is kept here in place, as the double it points to; a write through
    the pointer is an update of the vector that owns the slot. *)
Record HandlerVarType := {
  id : Z;
  name : string;
  interface_name_vec : list string;
  value_ptr_vec : list float
}.

Definition set_value_ptr_vec (v : list float) (h : HandlerVarType) : HandlerVarType :=
  {| id := id h; name := name h;
     interface_name_vec := interface_name_vec h; value_ptr_vec := v |}.

(** [hardware_interface::ComponentInfo] of a gpio, with its parameter map as
    [on_init] reads it: ["ID"] through [stoi] and the cast to [uint8_t],
    ["type"], and the remaining entries, each value through [stoi]. *)
Record ComponentInfo := {
  ci_name : string;
  ci_ID : Z;
  ci_type : string;
  ci_parameters : list (string * Z);
  state_interfaces : list string;
  command_interfaces : list string
}.

(** Modelled from the spec: the index macros are defined in the header, which
    is not under src/; [on_init] and [InitDxlReadItems] push the position slot
    first, the velocity slot second and the effort slot third. *)
Definition PRESENT_POSITION_INDEX : nat := 0.
Definition PRESENT_VELOCITY_INDEX : nat := 1.
Definition PRESENT_ERROT_INDEX : nat := 2.

(** The constants of the missing header whose value no claim depends on:
    the names of the two extra joint state interfaces and the number a
    [DxlError] becomes when it is stored into a double slot. *)
Class Header := {
  HW_IF_HARDWARE_STATE : string;
  HW_IF_TORQUE_ENABLE : string;
  DxlError_to_double : DxlError.t → float
}.

Definition HW_IF_POSITION : string := "position".
Definition HW_IF_VELOCITY : string := "velocity".
Definition HW_IF_ACCELERATION : string := "acceleration".
Definition HW_IF_EFFORT : string := "effort".

(** ** The actuator link

    The operations of [dxl_comm_] that the source calls.  Each takes the
    link's state and returns the new one with its result.
    [ReadMultiDxlData] also writes the registered transmission state slots:
    it returns, for an actuator id, an item name and the slot's old value, the
    value the slot holds afterwards.  [WriteMultiDxlData] reads the registered
    transmission command slots.  [busy_us] is the time, in microseconds, for
    which the call that left the link in this state kept its caller. *)
Class ActuatorLink (Link : Type) := {
  ReadMultiDxlData : Link → Link * (DxlError.t * (Z → string → float → float));
  WriteMultiDxlData : list HandlerVarType → Link → Link * DxlError.t;
  ReadItemBuf : Link → Link * DxlError.t;
  WriteItemBuf : Link → Link * DxlError.t;
  DynamixelEnable : list Z → Link → Link * DxlError.t;
  DynamixelDisable : list Z → Link → Link * DxlError.t;
  GetDxlTorqueState : Link → Link * gmap Z bool;
  Reboot : Z → Link → Link * DxlError.t;
  RWDataReset : Link → Link * unit;
  ReadItem : Z → string → Link → Link * (DxlError.t * Z);
  WriteItem : Z → string → Z → Link → Link * DxlError.t;
  SetDxlReadItems : Z → list string → Link → Link * DxlError.t;
  SetMultiDxlRead : Link → Link * DxlError.t;
  SetDxlWriteItems : Z → list string → Link → Link * DxlError.t;
  SetMultiDxlWrite : Link → Link * DxlError.t;
  busy_us : Link → N
}.

(** The calls made on the link, in order, with what the link answered. *)
Inductive LinkCall :=
| io_ReadMultiDxlData (result : DxlError.t)
| io_WriteMultiDxlData (commands : list HandlerVarType)
| io_ReadItemBuf
| io_WriteItemBuf
| io_DynamixelEnable (ids : list Z)
| io_DynamixelDisable (ids : list Z)
| io_GetDxlTorqueState (state : gmap Z bool)
| io_Reboot (dxl : Z) (result : DxlError.t)
| io_RWDataReset
| io_ReadItem (dxl : Z) (item : string) (result : DxlError.t)
| io_WriteItem (dxl : Z) (item : string) (data : Z) (result : DxlError.t)
| io_SetDxlReadItems (dxl : Z) (items : list string) (result : DxlError.t)
| io_SetMultiDxlRead (result : DxlError.t)
| io_SetDxlWriteItems (dxl : Z) (items : list string) (result : DxlError.t)
| io_SetMultiDxlWrite (result : DxlError.t).

(** The lines written to the logger and to [std::cout]. *)
Inductive LogEntry :=
| INFO_STREAM (text : string)
| ERROR_STREAM (text : string)
| ERROR_DxlError (text : string) (e : DxlError.t)
| WARN_HardwareErrorStates (dxl : Z) (bits : Z) (error_string : string)
| INFO_Sync (command : string) (command_value : float)
            (state : string) (state_value : float)
| INFO_Item (dxl : Z) (item : string) (data : Z)
| ERROR_Item (dxl : Z)
| cout (text : string).

(** ** Exceptions and the state monad *)

(** [std::out_of_range], thrown by [std::vector::at], and the undefined
    conversion of [double_to_uint8]. *)
Inductive exn := out_of_range | undefined_conversion.

(** A call returns normally with a value or leaves by an exception; either way
    the object is left in the state it had reached. *)
Inductive outcome (A : Type) := Normal (a : A) | Thrown (e : exn).
Arguments Normal {A} a.
Arguments Thrown {A} e.

Definition M (S A : Type) : Type := S → outcome A * S.

#[global] Instance M_ret {S} : MRet (M S) := λ A a s, (Normal a, s).

#[global] Instance M_bind {S} : MBind (M S) := λ A B f m s,
  match m s with
  | (Normal a, s') => f a s'
  | (Thrown e, s') => (Thrown e, s')
  end.

Definition throw {S A} (e : exn) : M S A := λ s, (Thrown e, s).
Definition gets {S A} (f : S → A) : M S A := λ s, (Normal (f s), s).
Definition modify {S} (f : S → S) : M S unit := λ s, (Normal tt, f s).

(** [v.at(i)]. *)
Definition at_ {S A} (v : list A) (i : nat) : M S A :=
  match v !! i with
  | Some x => mret x
  | None => throw out_of_range
  end.

(** [for (auto x : l) body], and the same with the loop's local variables
    threaded through as [b]. *)
Fixpoint for_each {S A} (l : list A) (body : A → M S unit) : M S unit :=
  match l with
  | [] => mret tt
  | x :: l' => body x ;; for_each l' body
  end.

Fixpoint fold_each {S A B} (l : list A) (body : A → B → M S B) (b : B) : M S B :=
  match l with
  | [] => mret b
  | x :: l' => b' ← body x b; fold_each l' body b'
  end.

(** [for (size_t i = 0; i < n; i++) body]. *)
Definition for_range {S} (n : nat) (body : nat → M S unit) : M S unit :=
  for_each (seq 0 n) body.

Definition fold_range {S B} (n : nat) (body : nat → B → M S B) (b : B) : M S B :=
  fold_each (seq 0 n) body b.

(** Runs [body] on the elements of [l] in turn and stops at the first for
    which it answers [false]: a loop left by [return false] or by [break] with
    the flag cleared. *)
Fixpoint all_of {S A} (l : list A) (body : A → M S bool) : M S bool :=
  match l with
  | [] => mret true
  | x :: l' => ok ← body x; if ok : bool then all_of l' body else mret false
  end.

(** ** The object *)

Section Hardware.
Context {Link : Type}.

(** The member variables of [class DynamixelHardware] that the modelled
    functions use.  The two matrices are the [double **] arrays that
    [SetMatrix] allocates with [num_of_joints_] and [num_of_transmissions_]
    rows and columns, read as [m i j].  [is_set_hdl_read] and
    [is_set_hdl_write] are the function-local [static bool is_set_hdl] of
    [InitDxlReadItems] and [InitDxlWriteItems].  [now_us] is the clock that
    [now()] reads, in microseconds. *)
Record DynamixelHardware := {
  dxl_status_ : DxlStatus;
  dxl_torque_status_ : DxlTorqueStatus;
  dxl_comm_err_ : DxlError.t;
  dxl_hw_err_ : gmap Z Z;
  dxl_torque_state_ : gmap Z bool;
  num_of_joints_ : nat;
  num_of_transmissions_ : nat;
  transmission_to_joint_matrix_ : nat → nat → float;
  joint_to_transmission_matrix_ : nat → nat → float;
  dxl_id_ : list Z;
  info_gpios : list ComponentInfo;
  hdl_trans_states_ : list HandlerVarType;
  hdl_trans_commands_ : list HandlerVarType;
  hdl_joint_states_ : list HandlerVarType;
  hdl_joint_commands_ : list HandlerVarType;
  hdl_gpio_sensor_states_ : list HandlerVarType;
  hdl_sensor_states_ : list HandlerVarType;
  is_set_hdl_read : bool;
  is_set_hdl_write : bool;
  dxl_comm_ : Link;
  now_us : Z;
  logger_ : list LogEntry;
  io_ : list LinkCall
}.

Definition eta (s : DynamixelHardware) : DynamixelHardware :=
  Build_DynamixelHardware
    (dxl_status_ s) (dxl_torque_status_ s) (dxl_comm_err_ s) (dxl_hw_err_ s)
    (dxl_torque_state_ s) (num_of_joints_ s) (num_of_transmissions_ s)
    (transmission_to_joint_matrix_ s) (joint_to_transmission_matrix_ s)
    (dxl_id_ s) (info_gpios s) (hdl_trans_states_ s) (hdl_trans_commands_ s)
    (hdl_joint_states_ s) (hdl_joint_commands_ s) (hdl_gpio_sensor_states_ s)
    (hdl_sensor_states_ s) (is_set_hdl_read s) (is_set_hdl_write s)
    (dxl_comm_ s) (now_us s) (logger_ s) (io_ s).

(** The assignment [member = v]: the record with the one field replaced. *)
Ltac assign member :=
  let e := eval cbv [eta] in eta in
  let p := eval pattern member in e in
  match p with
  | ?ctx _ => let t := eval cbv beta in (λ v s, ctx (λ _, v) s) in exact t
  end.

Definition set_dxl_status_ : DxlStatus → DynamixelHardware → DynamixelHardware :=
  ltac:(assign dxl_status_).
Definition set_dxl_torque_status_ : DxlTorqueStatus → DynamixelHardware → DynamixelHardware :=
  ltac:(assign dxl_torque_status_).
Definition set_dxl_comm_err_ : DxlError.t → DynamixelHardware → DynamixelHardware :=
  ltac:(assign dxl_comm_err_).
Definition set_dxl_hw_err_ : gmap Z Z → DynamixelHardware → DynamixelHardware :=
  ltac:(assign dxl_hw_err_).
Definition set_dxl_torque_state_ : gmap Z bool → DynamixelHardware → DynamixelHardware :=
  ltac:(assign dxl_torque_state_).
Definition set_hdl_trans_states_ : list HandlerVarType → DynamixelHardware → DynamixelHardware :=
  ltac:(assign hdl_trans_states_).
Definition set_hdl_trans_commands_ : list HandlerVarType → DynamixelHardware → DynamixelHardware :=
  ltac:(assign hdl_trans_commands_).
Definition set_hdl_joint_states_ : list HandlerVarType → DynamixelHardware → DynamixelHardware :=
  ltac:(assign hdl_joint_states_).
Definition set_hdl_joint_commands_ : list HandlerVarType → DynamixelHardware → DynamixelHardware :=
  ltac:(assign hdl_joint_commands_).
Definition set_hdl_gpio_sensor_states_ : list HandlerVarType → DynamixelHardware → DynamixelHardware :=
  ltac:(assign hdl_gpio_sensor_states_).
Definition set_hdl_sensor_states_ : list HandlerVarType → DynamixelHardware → DynamixelHardware :=
  ltac:(assign hdl_sensor_states_).
Definition set_is_set_hdl_read : bool → DynamixelHardware → DynamixelHardware :=
  ltac:(assign is_set_hdl_read).
Definition set_is_set_hdl_write : bool → DynamixelHardware → DynamixelHardware :=
  ltac:(assign is_set_hdl_write).
Definition set_dxl_comm_ : Link → DynamixelHardware → DynamixelHardware :=
  ltac:(assign dxl_comm_).
Definition set_now_us : Z → DynamixelHardware → DynamixelHardware :=
  ltac:(assign now_us).
Definition set_logger_ : list LogEntry → DynamixelHardware → DynamixelHardware :=
  ltac:(assign logger_).
Definition set_io_ : list LinkCall → DynamixelHardware → DynamixelHardware :=
  ltac:(assign io_).

Context {link : ActuatorLink Link} {header : Header}.

Abbreviation Cmd := (M DynamixelHardware).

(** A call [dxl_comm_->op(...)]: the link moves on, the call and its answer
    are appended to [io_] and the clock advances by the time the call took. *)
Definition call {A} (op : Link → Link * A) (ev : A → LinkCall) : Cmd A :=
  λ s, let (l, a) := op (dxl_comm_ s) in
       (Normal a,
        set_io_ (io_ s ++ [ev a])
          (set_now_us (now_us s + Z.of_N (busy_us l))%Z (set_dxl_comm_ l s))).

(** [usleep(us)]. *)
Definition usleep (us : Z) : Cmd unit :=
  modify (λ s, set_now_us (now_us s + us)%Z s).

(** A line on the logger. *)
Definition log (e : LogEntry) : Cmd unit :=
  modify (λ s, set_logger_ (logger_ s ++ [e]) s).

(** [*vec.at(i).value_ptr_vec.at(j)] read, and written with [x]; [vec] is one
    of the handler vectors, given by its member and its assignment. *)
Definition load (vec : DynamixelHardware → list HandlerVarType) (i j : nat) : Cmd float :=
  v ← gets vec; h ← at_ v i; at_ (value_ptr_vec h) j.

Definition store (vec : DynamixelHardware → list HandlerVarType)
    (set_vec : list HandlerVarType → DynamixelHardware → DynamixelHardware)
    (i j : nat) (x : float) : Cmd unit :=
  v ← gets vec; h ← at_ v i; _ ← at_ (value_ptr_vec h) j;
  modify (set_vec (<[i := set_value_ptr_vec (<[j := x]> (value_ptr_vec h)) h]> v)).

(** ** Fault classification: [CheckError] *)

(** The cause list that [CheckError] builds from the error bits, with the
    masks of the source. *)
Definition error_string_of (hw : Z) : string :=
  let error_string := "" in
  let error_string :=
    if bool_decide (Z.land hw 0x01 ≠ 0%Z)
    then error_string +:+ "input voltage error/ " else error_string in
  let error_string :=
    if bool_decide (Z.land hw 0x04 ≠ 0%Z)
    then error_string +:+ "overheating/ " else error_string in
  let error_string :=
    if bool_decide (Z.land hw 0x08 ≠ 0%Z)
    then error_string +:+ "motor encoder/ " else error_string in
  let error_string :=
    if bool_decide (Z.land hw 0x16 ≠ 0%Z)
    then error_string +:+ "electrical shork/ " else error_string in
  let error_string :=
    if bool_decide (Z.land hw 0x32 ≠ 0%Z)
    then error_string +:+ "Overload/ " else error_string in
  error_string.

(** The body of the hardware error loop at slot [j] of transmission handler
    [h]; [error_state] is the function's local variable. *)
Definition check_hardware_error (h : HandlerVarType) (j : nat)
    (error_state : DxlError.t) : Cmd DxlError.t :=
  if bool_decide (interface_name_vec h !! j = Some "Hardware Error Status") then
    d ← at_ (value_ptr_vec h) j;
    hw ← match double_to_uint8 d with
         | Some hw => mret hw
         | None => throw undefined_conversion
         end;
    modify (λ s, set_dxl_hw_err_ (<[id h := hw]> (dxl_hw_err_ s)) s);;
    let error_string := error_string_of hw in
    if bool_decide (error_string ≠ "") then
      log (WARN_HardwareErrorStates (id h) hw error_string);;
      modify (set_dxl_status_ HW_ERROR);;
      mret DxlError.DLX_HARDWARE_ERROR
    else mret error_state
  else mret error_state.

Definition CheckError (dxl_comm_err : DxlError.t) : Cmd DxlError.t :=
  (* check comm error *)
  if bool_decide (dxl_comm_err ≠ DxlError.OK) then
    log (ERROR_DxlError "Communication Fail --> " dxl_comm_err);;
    modify (set_dxl_status_ COMM_ERROR);;
    mret dxl_comm_err
  else
    (* check hardware error *)
    nt ← gets num_of_transmissions_;
    error_state ← fold_range nt (λ i error_state,
      v ← gets hdl_trans_states_; h ← at_ v i;
      fold_range (length (interface_name_vec h))
        (check_hardware_error h) error_state) DxlError.OK;
    (* Setup joint state handlers *)
    nj ← gets num_of_joints_;
    for_range nj (λ i,
      v ← gets hdl_joint_states_; h ← at_ v i;
      for_range (length (interface_name_vec h)) (λ j,
        if bool_decide (interface_name_vec h !! j = Some HW_IF_HARDWARE_STATE) then
          store hdl_joint_states_ set_hdl_joint_states_ i j
            (DxlError_to_double error_state)
        else mret tt));;
    mret error_state.

(** ** The kinematic mapping *)

(** One of the three loops of [CalcTransmissionToJoint]; they differ in the
    slot index only. *)
Definition transmission_to_joint (channel : nat) : Cmd unit :=
  nj ← gets num_of_joints_;
  for_range nj (λ i,
    nt ← gets num_of_transmissions_;
    value ← fold_range nt (λ j value,
      m ← gets transmission_to_joint_matrix_;
      x ← load hdl_trans_states_ j channel;
      mret (value + m i j * x)%float) 0%float;
    store hdl_joint_states_ set_hdl_joint_states_ i channel value).

Definition CalcTransmissionToJoint : Cmd unit :=
  (* position *)
  transmission_to_joint PRESENT_POSITION_INDEX;;
  (* velocity *)
  transmission_to_joint PRESENT_VELOCITY_INDEX;;
  (* effort *)
  transmission_to_joint PRESENT_ERROT_INDEX.

Definition CalcJointToTransmission : Cmd unit :=
  nt ← gets num_of_transmissions_;
  for_range nt (λ i,
    nj ← gets num_of_joints_;
    value ← fold_range nj (λ j value,
      m ← gets joint_to_transmission_matrix_;
      x ← load hdl_joint_commands_ j 0;
      mret (value + m i j * x)%float) 0%float;
    store hdl_trans_commands_ set_hdl_trans_commands_ i 0 value).

(** ** The control cycle: [read] *)

Definition ReadSensorData (sensor : HandlerVarType) : Cmd unit :=
  for_each (interface_name_vec sensor) (λ item,
    r ← call (ReadItem (id sensor) item) (λ r, io_ReadItem (id sensor) item r.1);
    let data := r.2 in
    n ← gets (λ s, length (hdl_sensor_states_ s));
    for_range n (λ i,
      v ← gets hdl_sensor_states_; h ← at_ v i;
      for_range (length (interface_name_vec h)) (λ j,
        if bool_decide (name h = name sensor ∧ interface_name_vec h !! j = Some item) then
          store hdl_sensor_states_ set_hdl_sensor_states_ i j (uint32_to_double data)
        else mret tt))).

(** [dxl_comm_->ReadMultiDxlData()]: the link answers and fills the
    registered slots, those of [hdl_trans_states_]. *)
Definition refresh (upd : Z → string → float → float) (h : HandlerVarType) : HandlerVarType :=
  set_value_ptr_vec
    (imap (λ j x, match interface_name_vec h !! j with
                  | Some item => upd (id h) item x
                  | None => x
                  end) (value_ptr_vec h)) h.

Definition read_multi : Cmd DxlError.t :=
  r ← call ReadMultiDxlData (λ r, io_ReadMultiDxlData r.1);
  modify (λ s, set_hdl_trans_states_ (refresh r.2 <$> hdl_trans_states_ s) s);;
  mret r.1.

(** What [read] does once the bulk read has not made it return. *)
Definition read_rest : Cmd return_type.t :=
  (* actuator to handler *)
  CalcTransmissionToJoint;;
  (* read sensor *)
  sensors ← gets hdl_gpio_sensor_states_;
  for_each sensors ReadSensorData;;
  (* read item buffer *)
  call ReadItemBuf (λ _, io_ReadItemBuf);;
  mret return_type.OK.

Definition read : Cmd return_type.t :=
  status ← gets dxl_status_;
  match status with
  | REBOOTING => mret return_type.ERROR
  | DXL_OK | COMM_ERROR =>
      (* read dxl *)
      e ← (r ← read_multi; CheckError r);
      modify (set_dxl_comm_err_ e);;
      if bool_decide (e ≠ DxlError.OK) then
        log (ERROR_DxlError "Dynamixel Read Fail :" e);;
        mret return_type.ERROR
      else read_rest
  | HW_ERROR =>
      (* read dxl *)
      e ← (r ← read_multi; CheckError r);
      modify (set_dxl_comm_err_ e);;
      (if bool_decide (e ≠ DxlError.OK)
       then log (ERROR_DxlError "Dynamixel Read Fail :" e)
       else mret tt);;
      read_rest
  end.

(** ** The torque coordinator *)

(** The loop shared by [SyncJointCommandWithStates] and [start]; the two
    differ in the number they print, [shown] of the value. *)
Definition sync_joint_commands (shown : float → float) : Cmd unit :=
  states ← gets hdl_joint_states_;
  n ← gets (λ s, length (hdl_joint_commands_ s));
  for_each states (λ it_states,
    for_range n (λ c,
      v ← gets hdl_joint_commands_; it_commands ← at_ v c;
      if bool_decide (name it_states = name it_commands) then
        for_range (length (interface_name_vec it_states)) (λ i,
          command ← at_ (interface_name_vec it_commands) 0;
          state ← at_ (interface_name_vec it_states) i;
          if bool_decide (command = state) then
            x ← at_ (value_ptr_vec it_states) i;
            store hdl_joint_commands_ set_hdl_joint_commands_ c 0 x;;
            log (INFO_Sync command (shown x) state (shown x))
          else mret tt)
      else mret tt)).

Definition SyncJointCommandWithStates : Cmd unit :=
  sync_joint_commands (λ x, x).

(** The loop over [dxl_torque_state_] at the end of [ChangeDxlTorqueState]:
    the first entry that is [false] decides. *)
Fixpoint torque_status_of (l : list (Z * bool)) : DxlTorqueStatus :=
  match l with
  | [] => TORQUE_ENABLED
  | single_torque_state :: l' =>
      if single_torque_state.2 then torque_status_of l' else TORQUE_DISABLED
  end.

Definition ChangeDxlTorqueState : Cmd unit :=
  status ← gets dxl_torque_status_;
  ids ← gets dxl_id_;
  match status with
  | REQUESTED_TO_ENABLE =>
      log (cout "torque enalble");;
      call (DynamixelEnable ids) (λ _, io_DynamixelEnable ids);;
      SyncJointCommandWithStates
  | REQUESTED_TO_DISABLE =>
      log (cout "torque disalble");;
      call (DynamixelDisable ids) (λ _, io_DynamixelDisable ids);;
      SyncJointCommandWithStates
  | _ => mret tt
  end;;
  state ← call GetDxlTorqueState io_GetDxlTorqueState;
  modify (set_dxl_torque_state_ state);;
  modify (set_dxl_torque_status_ (torque_status_of (map_to_list state))).

(** ** The control cycle: [write] *)

Definition write : Cmd return_type.t :=
  status ← gets dxl_status_;
  match status with
  | DXL_OK | HW_ERROR =>
      (* write item buffer *)
      call WriteItemBuf (λ _, io_WriteItemBuf);;
      (* write torque state *)
      ChangeDxlTorqueState;;
      (* handler to actuator *)
      CalcJointToTransmission;;
      (* write dxl *)
      commands ← gets hdl_trans_commands_;
      call (WriteMultiDxlData commands) (λ _, io_WriteMultiDxlData commands);;
      mret return_type.OK
  | _ =>
      (* REBOOTING and COMM_ERROR *)
      mret return_type.ERROR
  end.

(** ** [start] and [stop] *)

Definition start : Cmd CallbackReturn.t :=
  (* read present state from dxl *)
  e ← (r ← read_multi; CheckError r);
  modify (set_dxl_comm_err_ e);;
  if bool_decide (e ≠ DxlError.OK) then
    log (ERROR_DxlError "Dynamixel Start Fail :" e);;
    mret CallbackReturn.ERROR
  else
    (* actuator to handler *)
    CalcTransmissionToJoint;;
    (* sync commands = states joint *)
    sync_joint_commands (λ x, x * 180 / 3.141592)%float;;
    usleep (500 * 1000);;
    (* torque on *)
    ids ← gets dxl_id_;
    call (DynamixelEnable ids) (λ _, io_DynamixelEnable ids);;
    log (INFO_STREAM "Dynamixel Hardware Start!");;
    mret CallbackReturn.SUCCESS.

Definition stop : Cmd CallbackReturn.t :=
  (* torque off *)
  ids ← gets dxl_id_;
  call (DynamixelDisable ids) (λ _, io_DynamixelDisable ids);;
  log (INFO_STREAM "Dynamixel Hardware Stop!");;
  mret CallbackReturn.SUCCESS.

(** ** Item registration: [InitDxlItems], [InitDxlReadItems], [InitDxlWriteItems] *)

Definition InitDxlItems : Cmd bool :=
  log (INFO_STREAM "$$$$$ Init Dxl Items");;
  gpios ← gets info_gpios;
  all_of gpios (λ gpio,
    let id := ci_ID gpio in
    all_of (ci_parameters gpio) (λ it,
      if bool_decide (it.1 ≠ "ID" ∧ it.1 ≠ "type") then
        let data := (it.2 mod 2 ^ 32)%Z in
        e ← call (WriteItem id it.1 data) (io_WriteItem id it.1 data);
        if bool_decide (e ≠ DxlError.OK) then
          log (ERROR_Item id);; mret false
        else
          log (INFO_Item id it.1 it.2);; mret true
      else mret true)).

(** The transmission state handler that [InitDxlReadItems] builds for a gpio
    of type ["dxl"]: position, velocity, then the effort items, then the
    other state interfaces; every slot starts at [0.0]. *)
Definition trans_state_handler (gpio : ComponentInfo) : HandlerVarType :=
  let names :=
    ["Present Position"; "Present Velocity"]
    ++ filter (λ it, it = "Present Current" ∨ it = "Present Load")
         (state_interfaces gpio)
    ++ filter (λ it, it ≠ "Present Position" ∧ it ≠ "Present Velocity" ∧
                     it ≠ "Present Current" ∧ it ≠ "Present Load")
         (state_interfaces gpio) in
  {| id := ci_ID gpio; name := ci_name gpio;
     interface_name_vec := names;
     value_ptr_vec := (λ _, 0%float) <$> names |}.

(** The handler built for a gpio of type ["sensor"]: the inner loop pushes
    every state interface once for each pass of the outer loop. *)
Definition sensor_handler (gpio : ComponentInfo) : HandlerVarType :=
  let names := state_interfaces gpio ≫= (λ _, state_interfaces gpio) in
  {| id := ci_ID gpio; name := ci_name gpio;
     interface_name_vec := names;
     value_ptr_vec := (λ _, 0%float) <$> names |}.

Definition InitDxlReadItems : Cmd bool :=
  log (INFO_STREAM "$$$$$ Init Dxl Read Items");;
  is_set_hdl ← gets is_set_hdl_read;
  (if negb is_set_hdl then
     modify (set_hdl_trans_states_ []);;
     modify (set_hdl_gpio_sensor_states_ []);;
     gpios ← gets info_gpios;
     for_each gpios (λ gpio,
       if bool_decide (state_interfaces gpio ≠ [] ∧ ci_type gpio = "dxl") then
         (* init. hardware error state *)
         (if bool_decide ("Hardware Error Status" ∈ state_interfaces gpio) then
            modify (λ s, set_dxl_hw_err_ (<[ci_ID gpio := 0%Z]> (dxl_hw_err_ s)) s)
          else mret tt);;
         modify (λ s, set_hdl_trans_states_
                        (hdl_trans_states_ s ++ [trans_state_handler gpio]) s)
       else if bool_decide (state_interfaces gpio ≠ [] ∧ ci_type gpio = "sensor") then
         modify (λ s, set_hdl_gpio_sensor_states_
                        (hdl_gpio_sensor_states_ s ++ [sensor_handler gpio]) s)
       else mret tt);;
     modify (set_is_set_hdl_read true)
   else mret tt);;
  handlers ← gets hdl_trans_states_;
  ok ← all_of handlers (λ it,
    e ← call (SetDxlReadItems (id it) (interface_name_vec it))
             (io_SetDxlReadItems (id it) (interface_name_vec it));
    mret (bool_decide (e = DxlError.OK)));
  if negb ok then mret false else
  e ← call SetMultiDxlRead io_SetMultiDxlRead;
  if bool_decide (e ≠ DxlError.OK) then mret false else
  mret true.

(** One transmission command handler for each command interface of a gpio. *)
Definition trans_command_handlers (gpio : ComponentInfo) : list HandlerVarType :=
  (λ it, {| id := ci_ID gpio; name := ci_name gpio;
            interface_name_vec := [it]; value_ptr_vec := [0%float] |})
  <$> command_interfaces gpio.

Definition InitDxlWriteItems : Cmd bool :=
  log (INFO_STREAM "$$$$$ Init Dxl Write Items");;
  is_set_hdl ← gets is_set_hdl_write;
  (if negb is_set_hdl then
     gpios ← gets info_gpios;
     modify (set_hdl_trans_commands_ (gpios ≫= trans_command_handlers));;
     modify (set_is_set_hdl_write true)
   else mret tt);;
  handlers ← gets hdl_trans_commands_;
  ok ← all_of handlers (λ it,
    e ← call (SetDxlWriteItems (id it) (interface_name_vec it))
             (io_SetDxlWriteItems (id it) (interface_name_vec it));
    mret (bool_decide (e = DxlError.OK)));
  if negb ok then mret false else
  e ← call SetMultiDxlWrite io_SetMultiDxlWrite;
  if bool_decide (e ≠ DxlError.OK) then mret false else
  mret true.

(** ** Reboot recovery: [CommReset] *)

(** One pass of the body of the [while] loop up to its last [continue]:
    [true] when every actuator rebooted and the three registrations
    succeeded. *)
Definition reset_attempt : Cmd bool :=
  usleep (200 * 1000);;
  log (INFO_STREAM "Reset Start");;
  (* reboot dxl *)
  ids ← gets dxl_id_;
  result ← all_of ids (λ id,
    e ← call (Reboot id) (io_Reboot id);
    if bool_decide (e ≠ DxlError.OK) then
      log (ERROR_STREAM "Cannot reboot dynamixel! :(");; mret false
    else usleep (200 * 1000);; mret true);
  if negb result then mret false else
  ok ← InitDxlItems;
  if negb ok then mret false else
  ok ← InitDxlReadItems;
  if negb ok then mret false else
  InitDxlWriteItems.

(** The window of the [while] loop: [rclcpp::Duration(3, 0)], in
    microseconds. *)
Definition reset_window_us : Z := 3 * 1000 * 1000.

(** The [while] loop of [CommReset].  [Some true]: an attempt succeeded and
    the function returned [true] from inside the loop; [Some false]: the loop
    was left because the window had passed; [None]: the bound [fuel] on the
    number of passes was reached ([CommReset_loop_fuel]: it never is). *)
Fixpoint CommReset_loop (fuel : nat) (start_time : Z) : Cmd (option bool) :=
  match fuel with
  | 0 => mret None
  | S fuel' =>
      now ← gets now_us;
      if bool_decide (now - start_time < reset_window_us)%Z then
        ok ← reset_attempt;
        if ok : bool then
          (* Reboot Success *)
          log (INFO_STREAM "RESET Success");;
          usleep (1000 * 1000);;
          start;;
          modify (set_dxl_status_ DXL_OK);;
          mret (Some true)
        else CommReset_loop fuel' start_time
      else mret (Some false)
  end.

(** Every pass sleeps 200 ms first, so at most 15 passes begin within the
    window and the 16th test of the condition leaves the loop. *)
Definition reset_fuel : nat := 16.

Definition CommReset : Cmd (option bool) :=
  modify (set_dxl_status_ REBOOTING);;
  stop;;
  log (INFO_STREAM "Communication Reset Start");;
  (* clear comm port handler clear *)
  call RWDataReset (λ _, io_RWDataReset);;
  (* Get the start time *)
  start_time ← gets now_us;
  r ← CommReset_loop reset_fuel start_time;
  match r with
  | Some true => mret (Some true)
  | Some false =>
      log (ERROR_STREAM "RESET Failure");;
      usleep (1000 * 1000);;
      start;;
      mret (Some false)
  | None => mret None
  end.

(** ** The services *)

(** [std_srvs::srv::SetBool::Response]. *)
Record SetBool_Response := { success : bool; message : string }.

(** The polling loop of [set_dxl_torque_srv_callback].  The control thread
    writes [dxl_torque_status_] while the service thread waits; [polls] are
    the values the loop reads, one for each pass made within its second. *)
Fixpoint await_torque (data : bool) (polls : list DxlTorqueStatus) : SetBool_Response :=
  match polls with
  | [] => {| success := false;
             message := "Fail to write requeset. main thread is not running." |}
  | TORQUE_ENABLED :: _ =>
      if data then {| success := true; message := "Success to enable." |}
      else {| success := false; message := "Fail to enable." |}
  | TORQUE_DISABLED :: _ =>
      if negb data then {| success := true; message := "Success to disable." |}
      else {| success := false; message := "Fail to disable." |}
  | _ :: polls' => await_torque data polls'
  end.

Definition set_dxl_torque_srv_callback (data : bool) (polls : list DxlTorqueStatus)
    : Cmd SetBool_Response :=
  status ← gets dxl_torque_status_;
  if data then
    if bool_decide (status = TORQUE_ENABLED) then
      mret {| success := true; message := "Already enabled." |}
    else
      modify (set_dxl_torque_status_ REQUESTED_TO_ENABLE);;
      mret (await_torque data polls)
  else
    if bool_decide (status = TORQUE_DISABLED) then
      mret {| success := true; message := "Already disabled." |}
    else
      modify (set_dxl_torque_status_ REQUESTED_TO_DISABLE);;
      mret (await_torque data polls).

(** [reboot_dxl_srv_callback]: the response's [result]. *)
Definition reboot_dxl_srv_callback : Cmd (option bool) :=
  r ← CommReset;
  match r with
  | Some true => log (INFO_STREAM "[reboot_dxl_srv_callback] SUCCESS");; mret r
  | Some false => log (INFO_STREAM "[reboot_dxl_srv_callback] FAIL");; mret r
  | None => mret r
  end.

End Hardware.

Arguments DynamixelHardware : clear implicits.

(** ** A simulated link and a two-joint robot

    The concrete inputs on which the theorems below are exercised. *)

Module Bench.

(** A link with fixed answers: the result of the bulk read, the register
    values it delivers, the result of a reboot and the time every call
    takes; it keeps the torque state that enable and disable leave. *)
Record SimLink := {
  read_result : DxlError.t;
  registers : list (Z * string * float);
  reboot_result : DxlError.t;
  torque : gmap Z bool;
  call_us : N
}.

Definition register (l : SimLink) (dxl : Z) (item : string) (old : float) : float :=
  match list_find (λ r, r.1 = (dxl, item)) (registers l) with
  | Some (_, r) => r.2
  | None => old
  end.

Definition set_torque (t : gmap Z bool) (l : SimLink) : SimLink :=
  {| read_result := read_result l; registers := registers l;
     reboot_result := reboot_result l; torque := t; call_us := call_us l |}.

#[global] Instance sim_link : ActuatorLink SimLink := {
  ReadMultiDxlData l := (l, (read_result l, register l));
  WriteMultiDxlData _ l := (l, DxlError.OK);
  ReadItemBuf l := (l, DxlError.OK);
  WriteItemBuf l := (l, DxlError.OK);
  DynamixelEnable ids l :=
    (set_torque (foldr (λ i t, <[i := true]> t) (torque l) ids) l, DxlError.OK);
  DynamixelDisable ids l :=
    (set_torque (foldr (λ i t, <[i := false]> t) (torque l) ids) l, DxlError.OK);
  GetDxlTorqueState l := (l, torque l);
  Reboot _ l := (l, reboot_result l);
  RWDataReset l := (l, tt);
  ReadItem _ _ l := (l, (DxlError.OK, 0%Z));
  WriteItem _ _ _ l := (l, DxlError.OK);
  SetDxlReadItems _ _ l := (l, DxlError.OK);
  SetMultiDxlRead l := (l, DxlError.OK);
  SetDxlWriteItems _ _ l := (l, DxlError.OK);
  SetMultiDxlWrite l := (l, DxlError.OK);
  busy_us l := call_us l
}.

#[global] Instance header : Header := {
  HW_IF_HARDWARE_STATE := "hardware_state";
  HW_IF_TORQUE_ENABLE := "torque_enable";
  DxlError_to_double e :=
    match e with
    | DxlError.OK => 0%float
    | DxlError.DLX_HARDWARE_ERROR => (-16)%float
    | DxlError.LINK_FAIL code => (-1)%float
    end
}.

(** A healthy link: both actuators answer, torque is on. *)
Definition healthy : SimLink :=
  {| read_result := DxlError.OK;
     registers := [(5%Z, "Present Position", 1.5%float);
                   (5%Z, "Present Velocity", 0.25%float);
                   (6%Z, "Present Position", 2%float);
                   (6%Z, "Present Current", 4%float)];
     reboot_result := DxlError.OK;
     torque := {[ 5%Z := true; 6%Z := true ]};
     call_us := 1000 |}.

(** The bulk read fails. *)
Definition unplugged : SimLink :=
  {| read_result := DxlError.LINK_FAIL (-11);
     registers := [];
     reboot_result := DxlError.LINK_FAIL (-17);
     torque := ∅;
     call_us := 1000 |}.

(** The bus answers reads but no actuator accepts the reboot instruction. *)
Definition stubborn : SimLink :=
  {| read_result := DxlError.OK;
     registers := registers healthy;
     reboot_result := DxlError.LINK_FAIL (-17);
     torque := torque healthy;
     call_us := 1000 |}.

(** Actuator 5 reports the value [bits] in its hardware error register. *)
Definition faulty (bits : float) : SimLink :=
  {| read_result := DxlError.OK;
     registers := (5%Z, "Hardware Error Status", bits) :: registers healthy;
     reboot_result := DxlError.OK;
     torque := torque healthy;
     call_us := 1000 |}.

(** Actuator 6 has its torque off. *)
Definition limp : SimLink :=
  {| read_result := DxlError.OK;
     registers := registers healthy;
     reboot_result := DxlError.OK;
     torque := {[ 5%Z := true; 6%Z := false ]};
     call_us := 1000 |}.

Definition dxl (dxl : Z) (name : string) : HandlerVarType :=
  {| id := dxl; name := name;
     interface_name_vec := ["Present Position"; "Present Velocity";
                            "Present Current"; "Hardware Error Status"];
     value_ptr_vec := [0; 0; 0; 0]%float |}.

Definition goal (dxl : Z) (name : string) : HandlerVarType :=
  {| id := dxl; name := name;
     interface_name_vec := ["Goal Position"];
     value_ptr_vec := [0%float] |}.

Definition joint_state (name : string) (position velocity effort : float) : HandlerVarType :=
  {| id := 0; name := name;
     interface_name_vec := ["position"; "velocity"; "effort"; "hardware_state"];
     value_ptr_vec := [position; velocity; effort; 0%float] |}.

(** A joint commanded through two interfaces, position and velocity. *)
Definition joint_command (name : string) (position velocity : float) : HandlerVarType :=
  {| id := 0; name := name;
     interface_name_vec := ["position"; "velocity"];
     value_ptr_vec := [position; velocity] |}.

Definition matrix (rows : list (list float)) (i j : nat) : float :=
  default 0%float (rows !! i ≫= (.!! j)).

Definition gpio (dxl : Z) (name : string) : ComponentInfo :=
  {| ci_name := name; ci_ID := dxl; ci_type := "dxl";
     ci_parameters := [("Return Delay Time", 0%Z)];
     state_interfaces := ["Present Position"; "Present Velocity";
                          "Present Current"; "Hardware Error Status"];
     command_interfaces := ["Goal Position"] |}.

(** The robot after [on_init]: two actuators, ids 5 and 6, two joints. *)
Definition robot (link : SimLink) (status : DxlStatus) (torque_status : DxlTorqueStatus)
    : DynamixelHardware SimLink :=
  {| dxl_status_ := status;
     dxl_torque_status_ := torque_status;
     dxl_comm_err_ := DxlError.OK;
     dxl_hw_err_ := {[ 5%Z := 0%Z; 6%Z := 0%Z ]};
     dxl_torque_state_ := ∅;
     num_of_joints_ := 2;
     num_of_transmissions_ := 2;
     transmission_to_joint_matrix_ := matrix [[1; 0.5]; [0; 2]]%float;
     joint_to_transmission_matrix_ := matrix [[1; -0.25]; [0; 0.5]]%float;
     dxl_id_ := [5%Z; 6%Z];
     info_gpios := [gpio 5 "dxl1"; gpio 6 "dxl2"];
     hdl_trans_states_ := [dxl 5 "dxl1"; dxl 6 "dxl2"];
     hdl_trans_commands_ := [goal 5 "dxl1"; goal 6 "dxl2"];
     hdl_joint_states_ := [joint_state "joint1" 0.5 0.75 0;
                           joint_state "joint2" 1 0 0]%float;
     hdl_joint_commands_ := [joint_command "joint1" 3 7;
                             joint_command "joint2" 4 9]%float;
     hdl_gpio_sensor_states_ := [];
     hdl_sensor_states_ := [];
     is_set_hdl_read := true;
     is_set_hdl_write := true;
     dxl_comm_ := link;
     now_us := 0;
     logger_ := [];
     io_ := [] |}.

End Bench.

(** * What the claims are stated with *)

(** ** Specifications of commands

    [spec P m Q E]: run from a state that satisfies [P], the command [m]
    either returns a value [a] in a state that satisfies [Q a], or throws in
    a state that satisfies [E]. *)

Section Specifications.
Context {St : Type}.
Implicit Types (P E : St → Prop).

Definition spec {A} P (m : M St A) (Q : A → St → Prop) E : Prop :=
  ∀ s, P s →
    match m s with
    | (Normal a, s') => Q a s'
    | (Thrown _, s') => E s'
    end.

(** [m] maintains [P], whether it returns or throws. *)
Definition invariant {A} P (m : M St A) : Prop := spec P m (λ _, P) P.

End Specifications.

(** ** Slots, sums and matches *)

(** The value of slot [k] of handler [j] of a handler vector ([0.0] where
    there is no such slot): what [*vec.at(j).value_ptr_vec.at(k)] reads. *)
Definition slot (k : nat) (vec : list HandlerVarType) (j : nat) : float :=
  default 0%float (vec !! j ≫= λ h, value_ptr_vec h !! k).

(** The handler with slot [k] holding [x]. *)
Definition with_slot (k : nat) (x : float) (h : HandlerVarType) : HandlerVarType :=
  set_value_ptr_vec (<[k := x]> (value_ptr_vec h)) h.

(** A handler without its values: what no store changes. *)
Definition blank (h : HandlerVarType) : HandlerVarType :=
  set_value_ptr_vec (replicate (length (value_ptr_vec h)) 0%float) h.

(** The two vectors of a handler are parallel. *)
Definition parallel (h : HandlerVarType) : Prop :=
  length (interface_name_vec h) = length (value_ptr_vec h).

(** The sum of the spec, [Σ_j row[j] * x[j]] over [j < n], added up from
    [0.0] in the order of [j]. *)
Definition weighted_sum (row x : nat → float) (n : nat) : float :=
  foldl (λ value j, value + row j * x j)%float 0%float (seq 0 n).

(** Interface [i] of the state handler [st] is the one that the command
    handler [cmd] is synchronised with: the handlers have the same name, and
    the interface has the name of the command's first interface. *)
Definition matches (st : HandlerVarType) (i : nat) (cmd : HandlerVarType) : Prop :=
  name st = name cmd ∧
  ∃ item, interface_name_vec cmd !! 0 = Some item ∧
          interface_name_vec st !! i = Some item.

(** [cmd'] is [cmd] with its first slot holding the value of a state
    interface that matches. *)
Definition synced (states : list HandlerVarType) (cmd cmd' : HandlerVarType) : Prop :=
  ∃ st i x, st ∈ states ∧ matches st i cmd ∧
            value_ptr_vec st !! i = Some x ∧ cmd' = with_slot 0 x cmd.

(** Every state interface that matches a command handler. *)
Definition matched (states : list HandlerVarType) (c : nat) (cmd : HandlerVarType) : Prop :=
  ∃ st i, st ∈ states ∧ matches st i cmd.

(** The enable or disable call that [ChangeDxlTorqueState] makes. *)
Definition torque_calls (status : DxlTorqueStatus) (ids : list Z) : list LinkCall :=
  match status with
  | REQUESTED_TO_ENABLE => [io_DynamixelEnable ids]
  | REQUESTED_TO_DISABLE => [io_DynamixelDisable ids]
  | _ => []
  end.

Definition requested (status : DxlTorqueStatus) : Prop :=
  status = REQUESTED_TO_ENABLE ∨ status = REQUESTED_TO_DISABLE.

(** The bit of each cause in the Hardware Error Status register, one bit a
    cause, with the text that [CheckError] logs for it.  The masks of the
    first three tests of the source are these bits; the last two tests are
    written with the masks [0x16] and [0x32]. *)
Definition cause_bits : list (Z * string) :=
  [ (0x01, "input voltage error/ "); (0x04, "overheating/ ");
    (0x08, "motor encoder/ "); (0x10, "electrical shork/ ");
    (0x20, "Overload/ ") ]%Z.

(** [cause] is part of the cause list [error_string]. *)
Definition reported (cause error_string : string) : bool :=
  bool_decide (is_Some (String.index 0 cause error_string)).

(** The values of the register, a byte. *)
Definition bytes : list Z := Z.of_nat <$> seq 0 256.

(** ** Predicates on the object *)

Section Predicates.
Context {Link : Type}.
Implicit Types (s : DynamixelHardware Link) (D : nat → HandlerVarType → Prop).

(** The calls already made stay on the trace. *)
Definition made (t : list LinkCall) s : Prop := t `prefix_of` io_ s.

(** [s] has the handlers of [s0], slot for slot, with other values. *)
Record same_layout s0 s : Prop := {
  layout_joints : num_of_joints_ s = num_of_joints_ s0;
  layout_transmissions : num_of_transmissions_ s = num_of_transmissions_ s0;
  layout_trans_states : blank <$> hdl_trans_states_ s = blank <$> hdl_trans_states_ s0;
  layout_trans_commands :
    blank <$> hdl_trans_commands_ s = blank <$> hdl_trans_commands_ s0;
  layout_joint_states : blank <$> hdl_joint_states_ s = blank <$> hdl_joint_states_ s0;
  layout_joint_commands :
    blank <$> hdl_joint_commands_ s = blank <$> hdl_joint_commands_ s0;
  layout_gpio_sensor_states : hdl_gpio_sensor_states_ s = hdl_gpio_sensor_states_ s0;
  layout_sensor_states : blank <$> hdl_sensor_states_ s = blank <$> hdl_sensor_states_ s0
}.

(** What the control cycle needs of the handlers that [on_init] builds: the
    vectors hold a handler for every transmission and joint counted, a
    handler's vectors are parallel, transmission and joint states have the
    position, velocity and effort slots, and commands have a first slot. *)
Record well_formed s : Prop := {
  wf_trans_states : num_of_transmissions_ s ≤ length (hdl_trans_states_ s);
  wf_trans_commands : num_of_transmissions_ s ≤ length (hdl_trans_commands_ s);
  wf_joint_states : num_of_joints_ s ≤ length (hdl_joint_states_ s);
  wf_joint_commands : num_of_joints_ s ≤ length (hdl_joint_commands_ s);
  wf_trans_state_slots :
    Forall (λ h, parallel h ∧ 3 ≤ length (value_ptr_vec h)) (hdl_trans_states_ s);
  wf_trans_command_slots :
    Forall (λ h, 1 ≤ length (value_ptr_vec h)) (hdl_trans_commands_ s);
  wf_joint_state_slots :
    Forall (λ h, parallel h ∧ 3 ≤ length (value_ptr_vec h)) (hdl_joint_states_ s);
  wf_joint_command_slots :
    Forall (λ h, 1 ≤ length (interface_name_vec h) ∧ 1 ≤ length (value_ptr_vec h))
      (hdl_joint_commands_ s);
  wf_sensor_state_slots : Forall parallel (hdl_sensor_states_ s)
}.

(** [joint[i] = Σ_j T→J[i][j] * transmission[j]] on channel [k], and the
    inverse direction with the other matrix, from the joint commands. *)
Definition joint_value s (k i : nat) : float :=
  weighted_sum (transmission_to_joint_matrix_ s i)
    (slot k (hdl_trans_states_ s)) (num_of_transmissions_ s).

Definition transmission_value s (i : nat) : float :=
  weighted_sum (joint_to_transmission_matrix_ s i)
    (slot 0 (hdl_joint_commands_ s)) (num_of_joints_ s).

(** The joint state handlers with channel [k] mapped, with all three
    channels mapped, and the transmission command handlers mapped. *)
Definition joints_mapped s (k : nat) : list HandlerVarType :=
  imap (λ i h, if decide (i < num_of_joints_ s)
               then with_slot k (joint_value s k i) h else h)
       (hdl_joint_states_ s).

Definition joints_mapped_all s : list HandlerVarType :=
  imap (λ i h, if decide (i < num_of_joints_ s)
               then with_slot PRESENT_ERROT_INDEX (joint_value s PRESENT_ERROT_INDEX i)
                      (with_slot PRESENT_VELOCITY_INDEX (joint_value s PRESENT_VELOCITY_INDEX i)
                         (with_slot PRESENT_POSITION_INDEX
                            (joint_value s PRESENT_POSITION_INDEX i) h))
               else h)
       (hdl_joint_states_ s).

Definition transmissions_mapped s : list HandlerVarType :=
  imap (λ i h, if decide (i < num_of_transmissions_ s)
               then with_slot 0 (transmission_value s i) h else h)
       (hdl_trans_commands_ s).

(** The state of the loop: every command handler of [commands] is as it was
    or synchronised, and is synchronised where [D] says that a matching state
    interface has been visited. *)
Definition sync_progress (states commands : list HandlerVarType) D s : Prop :=
  ∀ c cmd, commands !! c = Some cmd →
    ∃ cmd', hdl_joint_commands_ s !! c = Some cmd' ∧
            (cmd' = cmd ∨ synced states cmd cmd') ∧
            (D c cmd → synced states cmd cmd').

(** The loop writes the joint commands and the log, nothing else. *)
Definition commands_and_log_of s0 s : Prop :=
  s = set_logger_ (logger_ s) (set_hdl_joint_commands_ (hdl_joint_commands_ s) s0).

(** The state that [ChangeDxlTorqueState] leaves: that of [s] but for the
    members named. *)
Definition torque_applied s (commands : list HandlerVarType) (lines : list LogEntry)
    (l : Link) (now : Z) (calls : list LinkCall) (state : gmap Z bool) :=
  set_dxl_torque_status_ (torque_status_of (map_to_list state))
    (set_dxl_torque_state_ state
       (set_io_ calls (set_now_us now (set_dxl_comm_ l
          (set_logger_ lines (set_hdl_joint_commands_ commands s)))))).

(** The claim that every interface of a command handler is resynchronised:
    wherever a joint's command handler and its state handler have an
    interface of the same name, the command slot holds the state value. *)
Definition all_interfaces_synced s : Prop :=
  ∀ st cmd k i item,
    st ∈ hdl_joint_states_ s → cmd ∈ hdl_joint_commands_ s → name st = name cmd →
    interface_name_vec cmd !! k = Some item →
    interface_name_vec st !! i = Some item →
    value_ptr_vec cmd !! k = value_ptr_vec st !! i.

(** What [read_rest] leaves alone. *)
Definition status_and_log_of s0 s : Prop :=
  dxl_status_ s = dxl_status_ s0 ∧ dxl_comm_err_ s = dxl_comm_err_ s0 ∧
  logger_ s = logger_ s0.

(** While the hardware error loop runs: no error found and the status as it
    was, or an error found and the status HardwareError. *)
Definition classified (status : DxlStatus) (error_state : DxlError.t) s : Prop :=
  (error_state = DxlError.OK ∧ dxl_status_ s = status) ∨
  (error_state = DxlError.DLX_HARDWARE_ERROR ∧ dxl_status_ s = HW_ERROR).

End Predicates.

(** ** The loop of the kinematic mappings

    The loop that the four mappings share, of which [transmission_to_joint]
    and [CalcJointToTransmission] are instances: [rows] values are computed,
    each from slot [a] of the first [cols] handlers of [src], and stored in
    slot [b] of the handlers of [dst]. *)

Section MapLoop.
Context {Link : Type}.
Implicit Types (s : DynamixelHardware Link).

Variables (rows cols : DynamixelHardware Link → nat)
          (matrix : DynamixelHardware Link → nat → nat → float)
          (src dst : DynamixelHardware Link → list HandlerVarType)
          (set_dst : list HandlerVarType → DynamixelHardware Link → DynamixelHardware Link)
          (a b : nat).

Definition map_loop : M (DynamixelHardware Link) unit :=
  n ← gets rows;
  for_range n (λ i,
    c ← gets cols;
    value ← fold_range c (λ j value,
      m ← gets matrix;
      x ← load src j a;
      mret (value + m i j * x)%float) 0%float;
    store dst set_dst i b value).

(** The value that the loop computes for row [i], and the destination
    handlers once the rows below [k] are stored. *)
Definition mapped_value s (i : nat) : float :=
  weighted_sum (matrix s i) (slot a (src s)) (cols s).

Definition mapped s (k : nat) : list HandlerVarType :=
  imap (λ i h, if decide (i < k) then with_slot b (mapped_value s i) h else h) (dst s).

End MapLoop.

(** ** The robots of the examples

    The two-joint robot in each communication status, on each link. *)

Definition robot_ok : DynamixelHardware Bench.SimLink :=
  Bench.robot Bench.healthy DXL_OK TORQUE_ENABLED.

Definition robot_rebooting : DynamixelHardware Bench.SimLink :=
  Bench.robot Bench.healthy REBOOTING TORQUE_ENABLED.

Definition robot_limp : DynamixelHardware Bench.SimLink :=
  Bench.robot Bench.limp DXL_OK REQUESTED_TO_ENABLE.

Definition robot_unplugged (status : DxlStatus) : DynamixelHardware Bench.SimLink :=
  Bench.robot Bench.unplugged status TORQUE_ENABLED.

Definition robot_disabled : DynamixelHardware Bench.SimLink :=
  Bench.robot Bench.limp DXL_OK TORQUE_DISABLED.

(** The robot with a request to enable the torque pending, and with the
    communication status CommError. *)
Definition robot_requested : DynamixelHardware Bench.SimLink :=
  Bench.robot Bench.healthy DXL_OK REQUESTED_TO_ENABLE.

Definition robot_comm_error : DynamixelHardware Bench.SimLink :=
  Bench.robot Bench.healthy COMM_ERROR TORQUE_ENABLED.

(** The robot on the bus whose actuators refuse the reboot instruction. *)
Definition robot_stubborn : DynamixelHardware Bench.SimLink :=
  Bench.robot Bench.stubborn COMM_ERROR TORQUE_ENABLED.

(** The robot whose actuator 5 reports the byte [bits]. *)
Definition robot_faulty (bits : float) : DynamixelHardware Bench.SimLink :=
  Bench.robot (Bench.faulty bits) DXL_OK TORQUE_ENABLED.

(** ** The torque query, the ticks and the channels of the inverse mapping *)

(** A tick of the control cycle. *)
Inductive Tick := tick_read | tick_write.

Section Cycle.
Context {Link : Type} {link : ActuatorLink Link} {header : Header}.
Implicit Types (s : DynamixelHardware Link).

(** The link as [ChangeDxlTorqueState] queries it: as the enable or disable
    call has left it when a request is pending, and as it is otherwise. *)
Definition link_at_query s : Link :=
  match dxl_torque_status_ s with
  | REQUESTED_TO_ENABLE => (DynamixelEnable (dxl_id_ s) (dxl_comm_ s)).1
  | REQUESTED_TO_DISABLE => (DynamixelDisable (dxl_id_ s) (dxl_comm_ s)).1
  | _ => dxl_comm_ s
  end.

(** Slot [j] of transmission [i] is a Hardware Error Status whose byte has a
    cause that [CheckError] lists, and some transmission has such a slot. *)
Definition hardware_error_at s (i j : nat) : Prop :=
  ∃ h d hw,
    hdl_trans_states_ s !! i = Some h ∧
    interface_name_vec h !! j = Some "Hardware Error Status" ∧
    value_ptr_vec h !! j = Some d ∧ double_to_uint8 d = Some hw ∧
    error_string_of hw ≠ "".

Definition hardware_error_found s : Prop :=
  ∃ i j, i < num_of_transmissions_ s ∧ hardware_error_at s i j.

(** The hardware error loop of [CheckError], run from [s0], has come to slot
    [j] of transmission [i] with the local variable [error_state]: it has
    changed neither the transmission states nor their number, and
    [error_state] tells whether it has met a hardware error. *)
Definition scanned s0 (i j : nat) (error_state : DxlError.t) s : Prop :=
  hdl_trans_states_ s = hdl_trans_states_ s0 ∧
  num_of_transmissions_ s = num_of_transmissions_ s0 ∧
  ((error_state = DxlError.OK ∧
    (∀ i' j', i' < i → ¬ hardware_error_at s0 i' j') ∧
    (∀ j', j' < j → ¬ hardware_error_at s0 i j')) ∨
   (error_state = DxlError.DLX_HARDWARE_ERROR ∧ hardware_error_found s0)).

(** The ticks [ticks] run one after the other, with what each returns. *)
Definition tick (t : Tick) : M (DynamixelHardware Link) return_type.t :=
  match t with
  | tick_read => read
  | tick_write => write
  end.

Fixpoint run_ticks (ticks : list Tick) : M (DynamixelHardware Link) (list return_type.t) :=
  match ticks with
  | [] => mret []
  | t :: ticks' => r ← tick t; rs ← run_ticks ticks'; mret (r :: rs)
  end.

(** The inverse direction read channel by channel, as the forward direction
    is: channel [k] of the transmission commands of [s'] is the sum over
    channel [k] of the joint commands of [s]. *)
Definition transmission_channel_value s (k i : nat) : float :=
  weighted_sum (joint_to_transmission_matrix_ s i)
    (slot k (hdl_joint_commands_ s)) (num_of_joints_ s).

Definition inverse_maps_channel s s' (k : nat) : Prop :=
  ∀ i, i < num_of_transmissions_ s →
    slot k (hdl_trans_commands_ s') i = transmission_channel_value s k i.

End Cycle.

(** The robot with a torque request pending while the communication status
    is CommError. *)
Definition robot_pending_comm_error : DynamixelHardware Bench.SimLink :=
  Bench.robot Bench.healthy COMM_ERROR REQUESTED_TO_ENABLE.

(** The robot with other velocity commands, 1000 and -1000 for 7 and 9. *)
Definition robot_fast : DynamixelHardware Bench.SimLink :=
  set_hdl_joint_commands_
    [Bench.joint_command "joint1" 3 1000; Bench.joint_command "joint2" 4 (-1000)]%float
    robot_ok.

(** The robot with the transmission states that the healthy link delivers. *)
Definition robot_moving : DynamixelHardware Bench.SimLink :=
  set_hdl_trans_states_
    [set_value_ptr_vec [1.5; 0.25; 0; 0]%float (Bench.dxl 5 "dxl1");
     set_value_ptr_vec [2; 0; 4; 0]%float (Bench.dxl 6 "dxl2")]
    robot_ok.

(** The robot on a bus whose actuators refuse the reboot while actuator 5
    reports the byte 1, input voltage error, and on the bus that is
    unplugged. *)
Definition robot_stubborn_faulty : DynamixelHardware Bench.SimLink :=
  Bench.robot
    {| Bench.read_result := DxlError.OK;
       Bench.registers := Bench.registers (Bench.faulty 1);
       Bench.reboot_result := DxlError.LINK_FAIL (-17);
       Bench.torque := Bench.torque Bench.healthy;
       Bench.call_us := 1000 |}
    COMM_ERROR TORQUE_ENABLED.

(** * Reasoning about commands *)

(** ** The rules of specifications *)

Section Logic.
Context {St : Type}.
Implicit Types (P E : St → Prop).

Lemma spec_conseq {A} P P' (m : M St A) (Q Q' : A → St → Prop) E E' :
  spec P' m Q' E' →
  (∀ s, P s → P' s) → (∀ a s, Q' a s → Q a s) → (∀ s, E' s → E s) →
  spec P m Q E.
Proof.
  intros Hm HP HQ HE s Hs. specialize (Hm s (HP s Hs)).
  destruct (m s) as [[a|e] s']; auto.
Qed.

Lemma spec_ret {A} P (a : A) (Q : A → St → Prop) E :
  (∀ s, P s → Q a s) → spec P (mret a) Q E.
Proof. intros H s Hs. apply H, Hs. Qed.

Lemma spec_bind {A B} P (m : M St A) (f : A → M St B) Q1 (Q : B → St → Prop) E :
  spec P m Q1 E → (∀ a, spec (Q1 a) (f a) Q E) → spec P (m ≫= f) Q E.
Proof.
  intros Hm Hf s Hs. specialize (Hm s Hs).
  unfold mbind, M_bind. destruct (m s) as [[a|e] s']; [|exact Hm].
  apply Hf, Hm.
Qed.

Lemma spec_gets {A} P (f : St → A) (Q : A → St → Prop) E :
  (∀ s, P s → Q (f s) s) → spec P (gets f) Q E.
Proof. intros H s Hs. apply H, Hs. Qed.

Lemma spec_modify P (f : St → St) (Q : unit → St → Prop) E :
  (∀ s, P s → Q tt (f s)) → spec P (modify f) Q E.
Proof. intros H s Hs. apply H, Hs. Qed.

Lemma spec_throw {A} P e (Q : A → St → Prop) E :
  (∀ s, P s → E s) → spec P (throw e) Q E.
Proof. intros H s Hs. apply H, Hs. Qed.

Lemma spec_at {A} P (v : list A) i (Q : A → St → Prop) E :
  (∀ x, v !! i = Some x → ∀ s, P s → Q x s) →
  (v !! i = None → ∀ s, P s → E s) →
  spec P (at_ v i) Q E.
Proof.
  intros HQ HE s Hs. unfold at_. destruct (v !! i) as [x|] eqn:Hx.
  - apply (HQ x eq_refl s Hs).
  - apply (HE eq_refl s Hs).
Qed.

(** A known pure fact may be used without being part of the precondition. *)
Lemma spec_pure {A} (φ : Prop) P (m : M St A) Q E :
  (φ → spec P m Q E) → spec (λ s, φ ∧ P s) m Q E.
Proof. intros H s [Hφ Hs]. apply (H Hφ s Hs). Qed.

(** [x ← gets f; k x]: the value read is that of some state satisfying [P]. *)
Lemma spec_bind_gets {A B} P (f : St → A) (k : A → M St B) Q E :
  (∀ a, spec (λ s, P s ∧ f s = a) (k a) Q E) → spec P (gets f ≫= k) Q E.
Proof. intros H s Hs. apply (H (f s) s). split; [exact Hs|reflexivity]. Qed.

(** The same, when only what the value read is matters later. *)
Lemma spec_bind_gets_pure {A B} P (f : St → A) (k : A → M St B) Q E :
  (∀ a, (∃ s, P s ∧ f s = a) → spec P (k a) Q E) → spec P (gets f ≫= k) Q E.
Proof. intros H s Hs. apply (H (f s)); eauto. Qed.

(** [x ← v.at(i); k x] with [i] in range. *)
Lemma spec_bind_at {A B} P (v : list A) i x (k : A → M St B) Q E :
  v !! i = Some x → spec P (k x) Q E → spec P (at_ v i ≫= k) Q E.
Proof.
  intros Hx H s Hs. unfold mbind, M_bind, at_. rewrite Hx. apply (H s Hs).
Qed.

(** [x ← v.at(i); k x] wherever [i] is. *)
Lemma spec_bind_at_any {A B} P (v : list A) i (k : A → M St B) Q E :
  (∀ x, spec P (k x) Q E) → (∀ s, P s → E s) → spec P (at_ v i ≫= k) Q E.
Proof.
  intros H HE s Hs. unfold mbind, M_bind, at_.
  destruct (v !! i) as [x|]; [apply (H x s Hs)|apply (HE s Hs)].
Qed.

(** An invariant as a specification that allows any exception. *)
Lemma invariant_spec {A} P (m : M St A) : invariant P m → spec P m (λ _, P) (λ _, True).
Proof. intros H. eapply spec_conseq; [exact H|auto..]. Qed.

(** The loops, with an invariant that sees the elements already visited. *)
Lemma spec_for_each_prefix {A} (I : list A → St → Prop) (l : list A)
    (body : A → M St unit) E :
  (∀ done x rest, l = done ++ x :: rest →
     spec (I done) (body x) (λ _, I (done ++ [x])) E) →
  spec (I []) (for_each l body) (λ _, I l) E.
Proof.
  intros Hbody.
  enough (H : ∀ rest done, l = done ++ rest →
            spec (I done) (for_each rest body) (λ _, I l) E)
    by exact (H l [] eq_refl).
  induction rest as [|x rest IH]; intros done Hl; simpl.
  - apply spec_ret. intros s Hs. rewrite Hl, app_nil_r. exact Hs.
  - eapply spec_bind; [exact (Hbody done x rest Hl)|].
    intros ?. apply IH. rewrite Hl, <- app_assoc. reflexivity.
Qed.

Lemma spec_fold_each_prefix {A B} (I : list A → B → St → Prop) (l : list A)
    (body : A → B → M St B) (b0 : B) E :
  (∀ done x rest b, l = done ++ x :: rest →
     spec (I done b) (body x b) (I (done ++ [x])) E) →
  spec (I [] b0) (fold_each l body b0) (I l) E.
Proof.
  intros Hbody.
  enough (H : ∀ rest done b, l = done ++ rest →
            spec (I done b) (fold_each rest body b) (I l) E)
    by exact (H l [] b0 eq_refl).
  induction rest as [|x rest IH]; intros done b Hl; simpl.
  - apply spec_ret. intros s Hs. rewrite Hl, app_nil_r. exact Hs.
  - eapply spec_bind; [exact (Hbody done x rest b Hl)|].
    intros b'. apply IH. rewrite Hl, <- app_assoc. reflexivity.
Qed.

Lemma spec_for_each {A} P (l : list A) (body : A → M St unit) E :
  (∀ x, x ∈ l → spec P (body x) (λ _, P) E) →
  spec P (for_each l body) (λ _, P) E.
Proof.
  intros Hbody. apply (spec_for_each_prefix (λ _, P)).
  intros done x rest Hl. apply Hbody. rewrite Hl. set_solver.
Qed.

Lemma spec_fold_each {A B} (I : B → St → Prop) (l : list A)
    (body : A → B → M St B) (b0 : B) E :
  (∀ x b, x ∈ l → spec (I b) (body x b) I E) →
  spec (I b0) (fold_each l body b0) I E.
Proof.
  intros Hbody. apply (spec_fold_each_prefix (λ _, I)).
  intros done x rest b Hl. apply Hbody. rewrite Hl. set_solver.
Qed.

Lemma spec_for_range P (n : nat) (body : nat → M St unit) E :
  (∀ i, i < n → spec P (body i) (λ _, P) E) →
  spec P (for_range n body) (λ _, P) E.
Proof.
  intros Hbody. apply spec_for_each. intros i Hi. apply Hbody.
  apply elem_of_seq in Hi. lia.
Qed.

Lemma spec_fold_range {B} (I : B → St → Prop) (n : nat)
    (body : nat → B → M St B) (b0 : B) E :
  (∀ i b, i < n → spec (I b) (body i b) I E) →
  spec (I b0) (fold_range n body b0) I E.
Proof.
  intros Hbody. apply spec_fold_each. intros i b Hi. apply Hbody.
  apply elem_of_seq in Hi. lia.
Qed.

Lemma spec_all_of {A} P (l : list A) (body : A → M St bool) E :
  (∀ x, x ∈ l → spec P (body x) (λ _, P) E) →
  spec P (all_of l body) (λ _, P) E.
Proof.
  induction l as [|x l IH]; intros Hbody; simpl.
  - apply spec_ret. auto.
  - eapply spec_bind; [apply Hbody; set_solver|].
    intros [|]; [apply IH; intros; apply Hbody; set_solver|].
    apply spec_ret. auto.
Qed.

(** Two specifications of one command hold together. *)
Lemma spec_and {A} P1 P2 (m : M St A) (Q1 Q2 : A → St → Prop) E1 E2 :
  spec P1 m Q1 E1 → spec P2 m Q2 E2 →
  spec (λ s, P1 s ∧ P2 s) m (λ a s, Q1 a s ∧ Q2 a s) (λ s, E1 s ∧ E2 s).
Proof.
  intros H1 H2 s [Hs1 Hs2]. specialize (H1 s Hs1). specialize (H2 s Hs2).
  destruct (m s) as [[a|e] s']; auto.
Qed.

(** The rules for [invariant]. *)
Lemma invariant_ret {A} P (a : A) : invariant P (mret a).
Proof. apply spec_ret. auto. Qed.

Lemma invariant_bind {A B} P (m : M St A) (f : A → M St B) :
  invariant P m → (∀ a, invariant P (f a)) → invariant P (m ≫= f).
Proof. intros Hm Hf. eapply spec_bind; [exact Hm|exact Hf]. Qed.

Lemma invariant_gets {A} P (f : St → A) : invariant P (gets f).
Proof. apply spec_gets. auto. Qed.

Lemma invariant_throw {A} P e : invariant P (throw e : M St A).
Proof. apply spec_throw. auto. Qed.

Lemma invariant_at {A} P (v : list A) i : invariant P (at_ v i).
Proof. apply spec_at; auto. Qed.

Lemma invariant_modify P (f : St → St) :
  (∀ s, P s → P (f s)) → invariant P (modify f).
Proof. intros H. apply spec_modify, H. Qed.

Lemma invariant_for_each {A} P (l : list A) (body : A → M St unit) :
  (∀ x, invariant P (body x)) → invariant P (for_each l body).
Proof. intros H. apply spec_for_each. intros x _. apply H. Qed.

Lemma invariant_fold_each {A B} P (l : list A) (body : A → B → M St B) b :
  (∀ x b, invariant P (body x b)) → invariant P (fold_each l body b).
Proof. intros H. apply (spec_fold_each (λ _, P)). intros x b' _. apply H. Qed.

Lemma invariant_all_of {A} P (l : list A) (body : A → M St bool) :
  (∀ x, invariant P (body x)) → invariant P (all_of l body).
Proof. intros H. apply spec_all_of. intros x _. apply H. Qed.

(** Running a sequence whose first command is known to return. *)
Lemma bind_normal {A B} (m : M St A) (f : A → M St B) s a s' :
  m s = (Normal a, s') → (m ≫= f) s = f a s'.
Proof. intros Hm. unfold mbind, M_bind. by rewrite Hm. Qed.

Lemma bind_thrown {A B} (m : M St A) (f : A → M St B) s e s' :
  m s = (Thrown e, s') → (m ≫= f) s = (Thrown e, s').
Proof. intros Hm. unfold mbind, M_bind. by rewrite Hm. Qed.

Lemma bind_gets {A B} (g : St → A) (f : A → M St B) s :
  (gets g ≫= f) s = f (g s) s.
Proof. reflexivity. Qed.

Lemma bind_modify {B} (g : St → St) (f : unit → M St B) s :
  (modify g ≫= f) s = f tt (g s).
Proof. reflexivity. Qed.

Lemma bind_ret {A B} (a : A) (f : A → M St B) s : (mret a ≫= f) s = f a s.
Proof. reflexivity. Qed.

Lemma bind_assoc {A B C} (m : M St A) (f : A → M St B) (g : B → M St C) s :
  ((m ≫= f) ≫= g) s = (m ≫= λ a, f a ≫= g) s.
Proof. unfold mbind, M_bind. by destruct (m s) as [[a|e] s']. Qed.

Lemma bind_inv {A B} (m : M St A) (f : A → M St B) s b s' :
  (m ≫= f) s = (Normal b, s') →
  ∃ a s1, m s = (Normal a, s1) ∧ f a s1 = (Normal b, s').
Proof.
  unfold mbind, M_bind. destruct (m s) as [[a|e] s1]; [eauto|done].
Qed.

(** A command that establishes [I], followed by one that maintains it. *)
Lemma spec_then_invariant {A B} P I (m : M St A) (f : A → M St B) :
  spec P m (λ _, I) I → (∀ a, invariant I (f a)) → spec P (m ≫= f) (λ _, I) I.
Proof. intros Hm Hf. eapply spec_bind; [exact Hm|exact Hf]. Qed.

(** What a specification says of a run. *)
Lemma invariant_run {A} P (m : M St A) s : invariant P m → P s → P (m s).2.
Proof.
  intros H Hs. specialize (H s Hs). destruct (m s) as [[a|e] s']; exact H.
Qed.


Lemma spec_run {A} P (m : M St A) (Q : A → St → Prop) s :
  spec P m Q (λ _, False) → P s → ∃ a s', m s = (Normal a, s') ∧ Q a s'.
Proof.
  intros H Hs. specialize (H s Hs). destruct (m s) as [[a|e] s']; [|done].
  eauto.
Qed.

End Logic.

(** ** Stepping through a command *)

Create HintDb cmd discriminated.

#[global] Hint Unfold for_range fold_range : cmd.
#[global] Hint Unfold usleep log : cmd.

(** One step of the proof that a command maintains an invariant: the rule
    for the command's head.  The assignments, the calls on the link and the
    stores are left to the caller. *)
Ltac invariant_step :=
  lazymatch goal with
  | |- invariant _ (mret _) => apply invariant_ret
  | |- invariant _ (mbind _ _) => apply invariant_bind; [|intros ?]
  | |- invariant _ (gets _) => apply invariant_gets
  | |- invariant _ (throw _) => apply invariant_throw
  | |- invariant _ (at_ _ _) => apply invariant_at
  | |- invariant _ (for_each _ _) => apply invariant_for_each; intros ?
  | |- invariant _ (fold_each _ _ _) => apply invariant_fold_each; intros ? ?
  | |- invariant _ (all_of _ _) => apply invariant_all_of; intros ?
  | |- invariant _ (if ?b then _ else _) => destruct b
  | |- invariant _ (match ?x with _ => _ end) => destruct x
  | |- invariant _ (let _ := _ in _) => cbv zeta
  end.

Section Invariants.
Context {Link : Type} {link : ActuatorLink Link} {header : Header}.
Implicit Types (s : DynamixelHardware Link) (P : DynamixelHardware Link → Prop).

Lemma invariant_call {A} P (op : Link → Link * A) (ev : A → LinkCall) :
  (∀ s l a, P s →
     P (set_io_ (io_ s ++ [ev a])
          (set_now_us (now_us s + Z.of_N (busy_us l))%Z (set_dxl_comm_ l s)))) →
  invariant P (call op ev).
Proof.
  intros H s Hs. unfold call. destruct (op (dxl_comm_ s)) as [l a].
  apply H, Hs.
Qed.

Lemma invariant_load P vec i j : invariant P (load vec i j).
Proof. unfold load. repeat invariant_step. Qed.

Lemma invariant_store P vec set_vec i j x :
  (∀ s h, P s → vec s !! i = Some h → j < length (value_ptr_vec h) →
     P (set_vec (<[i := set_value_ptr_vec (<[j := x]> (value_ptr_vec h)) h]> (vec s)) s)) →
  invariant P (store vec set_vec i j x).
Proof.
  intros H s Hs. unfold store, mbind, M_bind, gets, at_; simpl.
  destruct (vec s !! i) as [h|] eqn:Hh; simpl; [|exact Hs].
  destruct (value_ptr_vec h !! j) as [y|] eqn:Hy; simpl; [|exact Hs].
  unfold modify. apply (H s h Hs Hh). eapply lookup_lt_Some, Hy.
Qed.

End Invariants.

#[global] Hint Unfold CheckError check_hardware_error transmission_to_joint
  CalcTransmissionToJoint CalcJointToTransmission ReadSensorData read_multi
  read_rest read sync_joint_commands SyncJointCommandWithStates
  ChangeDxlTorqueState write start stop InitDxlItems InitDxlReadItems
  InitDxlWriteItems reset_attempt : cmd.

(** The proof that a command maintains an invariant that no assignment to a
    handler slot can break: [leaf] proves that an assignment to a member, a
    call on the link or a store keeps the invariant. *)
Ltac invariant_with leaf :=
  repeat first
    [ invariant_step
    | apply invariant_load
    | apply invariant_modify; intros ? ?; leaf
    | apply invariant_call; intros ? ? ? ?; leaf
    | apply invariant_store; intros ? ? ? ? ?; leaf
    | progress autounfold with cmd ].

Section Frames.
Context {Link : Type} {link : ActuatorLink Link} {header : Header}.
Implicit Types (s : DynamixelHardware Link).

Lemma made_call t s (l : Link) ev :
  made t s →
  made t (set_io_ (io_ s ++ [ev])
            (set_now_us (now_us s + Z.of_N (busy_us l))%Z (set_dxl_comm_ l s))).
Proof. unfold made. simpl. intros Hs. etrans; [exact Hs|apply prefix_app_r; done]. Qed.

(** After a call on the link the trace holds the call, with the answer. *)
Lemma call_made {A} s (op : Link → Link * A) (ev : A → LinkCall) :
  spec (eq s) (call op ev)
    (λ a s', a = (op (dxl_comm_ s)).2 ∧ made (io_ s ++ [ev a]) s') (λ _, False).
Proof.
  intros s' <-. unfold call. destruct (op (dxl_comm_ s)) as [l a]. simpl.
  split; [reflexivity|]. unfold made. simpl. reflexivity.
Qed.

Ltac made_leaf := first [assumption | by apply made_call].

Lemma CheckError_made t e : invariant (made (Link:=Link) t) (CheckError e).
Proof. invariant_with made_leaf. Qed.

Lemma read_rest_made t : invariant (made (Link:=Link) t) read_rest.
Proof. invariant_with made_leaf. Qed.

(** [read] from the bulk read on: the bulk read is the first call. *)
Lemma read_multi_made s :
  spec (eq s) read_multi
    (λ e s', e = (ReadMultiDxlData (dxl_comm_ s)).2.1 ∧
             made (io_ s ++ [io_ReadMultiDxlData e]) s')
    (λ _, False).
Proof.
  intros s' <-. unfold read_multi, call, mbind, M_bind, modify.
  destruct (ReadMultiDxlData (dxl_comm_ s)) as [l [e upd]]. simpl.
  split; [reflexivity|]. unfold made. simpl. reflexivity.
Qed.

(** C7. The read step attempts the bulk read in every tick whose
    communication status is Ok, CommError or HardwareError: the call, with the
    link's answer, is the first that the tick adds to the trace, whatever
    happens afterwards.  When the status is Rebooting the tick is refused: it
    returns ERROR and leaves the object, the link and the trace as they
    were. *)
Theorem read_attempts_bulk_read s :
  (dxl_status_ s = REBOOTING → read s = (Normal return_type.ERROR, s)) ∧
  (dxl_status_ s ≠ REBOOTING →
     made (io_ s ++ [io_ReadMultiDxlData (ReadMultiDxlData (dxl_comm_ s)).2.1])
          (read s).2).
Proof.
  split.
  - intros Hs. unfold read, mbind, M_bind, gets. rewrite Hs. reflexivity.
  - intros Hs.
    set (t := io_ s ++ [io_ReadMultiDxlData (ReadMultiDxlData (dxl_comm_ s)).2.1]).
    assert (Hread : spec (eq s) read (λ _, made t) (made t)).
    { assert (Hbulk : spec (eq s) (r ← read_multi; CheckError r)
                        (λ _, made t) (made t)).
      { apply (spec_bind _ _ _ (λ _, made t)).
        - eapply spec_conseq; [apply (read_multi_made s)|auto| |done].
          intros e s' [-> Hs']. exact Hs'.
        - intros e. apply CheckError_made. }
      assert (Hbulk' : ∀ P : DynamixelHardware Link → Prop,
                spec (λ s', s = s' ∧ P s') (r ← read_multi; CheckError r)
                  (λ _, made t) (made t)).
      { intros P. eapply spec_conseq; [exact Hbulk|by intros ? [-> _]|auto|auto]. }
      unfold read. apply spec_bind_gets. intros status.
      destruct status.
      + apply spec_then_invariant; [apply Hbulk'|].
        intros e. invariant_with made_leaf.
      + apply spec_then_invariant; [apply Hbulk'|].
        intros e. invariant_with made_leaf.
      + apply spec_then_invariant; [apply Hbulk'|].
        intros e. invariant_with made_leaf.
      + intros s' [<- Hst]. congruence. }
    specialize (Hread s eq_refl).
    destruct (read s) as [[r|e] s']; exact Hread.
Qed.

End Frames.

(** ** Slots, layouts and well-formed objects *)

Section Layout.
Context {Link : Type} {link : ActuatorLink Link} {header : Header}.
Implicit Types (s : DynamixelHardware Link) (h : HandlerVarType).

Lemma blank_eq h h' :
  blank h = blank h' ↔
  id h = id h' ∧ name h = name h' ∧
  interface_name_vec h = interface_name_vec h' ∧
  length (value_ptr_vec h) = length (value_ptr_vec h').
Proof.
  destruct h as [i n ns vs], h' as [i' n' ns' vs']. unfold blank. simpl. split.
  - intros [= -> -> -> Hv]. repeat split.
    apply (f_equal length) in Hv. by rewrite !length_replicate in Hv.
  - intros (-> & -> & -> & ->). reflexivity.
Qed.

Lemma blank_with_slot k x h : blank (with_slot k x h) = blank h.
Proof. apply blank_eq. simpl. by rewrite length_insert. Qed.

Lemma blank_refresh upd h : blank (refresh upd h) = blank h.
Proof. apply blank_eq. simpl. by rewrite length_imap. Qed.

Lemma blank_insert (v : list HandlerVarType) i h h' :
  v !! i = Some h → blank h' = blank h → blank <$> <[i := h']> v = blank <$> v.
Proof.
  intros Hi Hb. rewrite list_fmap_insert, Hb.
  apply list_insert_id. by rewrite list_lookup_fmap, Hi.
Qed.

Lemma blank_lookup (v v0 : list HandlerVarType) i h :
  blank <$> v = blank <$> v0 → v !! i = Some h →
  ∃ h0, v0 !! i = Some h0 ∧ blank h = blank h0.
Proof.
  intros Hv Hi. apply (f_equal (.!! i)) in Hv.
  rewrite !list_lookup_fmap, Hi in Hv. simpl in Hv.
  destruct (v0 !! i) as [h0|]; simpl in Hv; [|done].
  exists h0. split; [reflexivity|congruence].
Qed.

Lemma blank_length (v v0 : list HandlerVarType) :
  blank <$> v = blank <$> v0 → length v = length v0.
Proof. intros Hv. apply (f_equal length) in Hv. by rewrite !length_fmap in Hv. Qed.

Lemma blank_Forall (P : HandlerVarType → Prop) (v v0 : list HandlerVarType) :
  (∀ h h0, blank h = blank h0 → P h0 → P h) →
  blank <$> v = blank <$> v0 → Forall P v0 → Forall P v.
Proof.
  intros HP Hv Hv0. apply Forall_lookup. intros i h Hi.
  destruct (blank_lookup v v0 i h Hv Hi) as (h0 & Hi0 & Hb).
  apply (HP h h0 Hb). eapply Forall_lookup_1; eauto.
Qed.

Lemma same_layout_refl s : same_layout s s.
Proof. by constructor. Qed.

Lemma same_layout_trans s0 s1 s2 :
  same_layout s0 s1 → same_layout s1 s2 → same_layout s0 s2.
Proof. intros [] []. constructor; congruence. Qed.

Lemma well_formed_layout s0 s : same_layout s0 s → well_formed s0 → well_formed s.
Proof.
  intros [Hj Ht Hts Htc Hjs Hjc Hg Hss] [].
  constructor;
    rewrite ?Hj, ?Ht, ?(blank_length _ _ Hts), ?(blank_length _ _ Htc),
      ?(blank_length _ _ Hjs), ?(blank_length _ _ Hjc); try assumption.
  all: eapply blank_Forall; [|eassumption|eassumption].
  all: unfold parallel; intros h h0 Hb; apply blank_eq in Hb as (_ & _ & Hn & Hv);
    rewrite ?Hn, ?Hv; done.
Qed.

(** ** Loads and stores that succeed *)

Lemma load_run vec i j s h x :
  vec s !! i = Some h → value_ptr_vec h !! j = Some x →
  load vec i j s = (Normal x, s).
Proof.
  intros Hh Hx. unfold load, mbind, M_bind, gets, at_. simpl.
  rewrite Hh. simpl. rewrite Hx. reflexivity.
Qed.

Lemma load_slot vec i j s h :
  vec s !! i = Some h → j < length (value_ptr_vec h) →
  load vec i j s = (Normal (slot j (vec s) i), s).
Proof.
  intros Hh Hj. destruct (lookup_lt_is_Some_2 _ _ Hj) as [x Hx].
  rewrite (load_run vec i j s h x Hh Hx). unfold slot.
  rewrite Hh. simpl. rewrite Hx. reflexivity.
Qed.

Lemma store_run vec set_vec i j x s h :
  vec s !! i = Some h → j < length (value_ptr_vec h) →
  store vec set_vec i j x s = (Normal tt, set_vec (<[i := with_slot j x h]> (vec s)) s).
Proof.
  intros Hh Hj. destruct (lookup_lt_is_Some_2 _ _ Hj) as [y Hy].
  unfold store, mbind, M_bind, gets, at_. simpl.
  rewrite Hh. simpl. rewrite Hy. reflexivity.
Qed.

End Layout.

(** ** The kinematic mapping *)

Section Ranges.
Context {St : Type}.

Lemma seq_split_index (n : nat) (done rest : list nat) (x : nat) :
  seq 0 n = done ++ x :: rest → x = length done ∧ x < n.
Proof.
  intros Hl. assert (Hx : seq 0 n !! length done = Some x).
  { rewrite Hl. by apply list_lookup_middle. }
  apply lookup_seq in Hx. lia.
Qed.

Lemma spec_for_range_count (I : nat → St → Prop) (n : nat)
    (body : nat → M St unit) E :
  (∀ i, i < n → spec (I i) (body i) (λ _, I (S i)) E) →
  spec (I 0) (for_range n body) (λ _, I n) E.
Proof.
  intros Hbody. unfold for_range.
  eapply spec_conseq.
  - apply (spec_for_each_prefix (λ done, I (length done))).
    intros done x rest Hl. destruct (seq_split_index _ _ _ _ Hl) as [-> Hx].
    rewrite length_app. simpl. rewrite Nat.add_1_r. apply Hbody, Hx.
  - auto.
  - intros ? s. by rewrite length_seq.
  - auto.
Qed.

Lemma spec_for_range_with (I : nat → St → Prop) P (n : nat)
    (body : nat → M St unit) (Q : unit → St → Prop) E :
  (∀ s, P s → I 0 s) → (∀ s, I n s → Q tt s) →
  (∀ i, i < n → spec (I i) (body i) (λ _, I (S i)) E) →
  spec P (for_range n body) Q E.
Proof.
  intros HP HQ Hbody.
  eapply spec_conseq; [apply (spec_for_range_count I), Hbody|exact HP| |auto].
  intros [] s. apply HQ.
Qed.

Lemma spec_fold_range_count {B} (I : nat → B → St → Prop) (n : nat)
    (body : nat → B → M St B) (b0 : B) E :
  (∀ i b, i < n → spec (I i b) (body i b) (I (S i)) E) →
  spec (I 0 b0) (fold_range n body b0) (I n) E.
Proof.
  intros Hbody. unfold fold_range.
  eapply spec_conseq.
  - apply (spec_fold_each_prefix (λ done, I (length done))).
    intros done x rest b Hl. destruct (seq_split_index _ _ _ _ Hl) as [-> Hx].
    rewrite length_app. simpl. rewrite Nat.add_1_r. apply Hbody, Hx.
  - auto.
  - intros b s. by rewrite length_seq.
  - auto.
Qed.

End Ranges.

Section Kinematics.
Context {Link : Type} {link : ActuatorLink Link} {header : Header}.
Implicit Types (s : DynamixelHardware Link).

Variables (rows cols : DynamixelHardware Link → nat)
          (matrix : DynamixelHardware Link → nat → nat → float)
          (src dst : DynamixelHardware Link → list HandlerVarType)
          (set_dst : list HandlerVarType → DynamixelHardware Link → DynamixelHardware Link)
          (a b : nat).

(** [set_dst] assigns the member [dst] and no other member that the loop
    reads. *)
Hypotheses
  (dst_set : ∀ v s, dst (set_dst v s) = v)
  (src_set : ∀ v s, src (set_dst v s) = src s)
  (rows_set : ∀ v s, rows (set_dst v s) = rows s)
  (cols_set : ∀ v s, cols (set_dst v s) = cols s)
  (matrix_set : ∀ v s, matrix (set_dst v s) = matrix s)
  (set_set : ∀ v v' s, set_dst v (set_dst v' s) = set_dst v s)
  (set_dst_id : ∀ s, set_dst (dst s) s = s).

Local Abbreviation loop := (map_loop rows cols matrix src dst set_dst a b).
Local Abbreviation value := (mapped_value cols matrix src a).
Local Abbreviation stored := (mapped cols matrix src dst a b).

Lemma mapped_0 s : stored s 0 = dst s.
Proof.
  unfold mapped. apply list_eq. intros i. rewrite list_lookup_imap.
  by destruct (dst s !! i).
Qed.

Lemma mapped_S s k h :
  dst s !! k = Some h →
  <[k := with_slot b (value s k) h]> (stored s k) = stored s (S k).
Proof.
  intros Hk. unfold mapped. apply list_eq. intros i.
  destruct (decide (i = k)) as [->|Hne].
  - rewrite list_lookup_insert_eq
      by (rewrite length_imap; eapply lookup_lt_Some, Hk).
    rewrite list_lookup_imap, Hk. simpl. case_decide; [done|lia].
  - rewrite list_lookup_insert_ne by done. rewrite !list_lookup_imap.
    destruct (dst s !! i); simpl; [|done].
    repeat case_decide; (done || lia).
Qed.

Lemma weighted_sum_run s i :
  (∀ j, j < cols s → ∃ h, src s !! j = Some h ∧ a < length (value_ptr_vec h)) →
  fold_range (cols s) (λ j value,
      m ← gets matrix;
      x ← load src j a;
      mret (value + m i j * x)%float) 0%float s
  = (Normal (value s i), s).
Proof.
  intros Hsrc.
  pose (I := λ (j : nat) (value : float) s',
    s' = s ∧ value = foldl (λ value j, value + matrix s i j * slot a (src s) j)%float
                       0%float (seq 0 j)).
  assert (Hfold : spec (I 0 0%float) (fold_range (cols s) (λ j value,
      m ← gets matrix; x ← load src j a; mret (value + m i j * x)%float) 0%float)
      (I (cols s)) (λ _, False)).
  { apply spec_fold_range_count. intros j value Hj s' [-> ->].
    destruct (Hsrc j Hj) as (h & Hh & Ha).
    unfold mbind, M_bind, gets. rewrite (load_slot src j a s h Hh Ha).
    split; [reflexivity|]. rewrite seq_S, foldl_app. reflexivity. }
  destruct (spec_run _ _ _ s Hfold) as (value & s' & -> & -> & ->);
    [by split|reflexivity].
Qed.

Theorem map_loop_run s :
  rows s ≤ length (dst s) →
  (∀ j, j < cols s → ∃ h, src s !! j = Some h ∧ a < length (value_ptr_vec h)) →
  (∀ i h, i < rows s → dst s !! i = Some h → b < length (value_ptr_vec h)) →
  loop s = (Normal tt, set_dst (stored s (rows s)) s).
Proof.
  intros Hrows Hsrc Hdst.
  pose (I := λ (k : nat) s', s' = set_dst (stored s k) s).
  assert (Hloop : spec (I 0) (for_range (rows s) (λ i,
      c ← gets cols;
      value ← fold_range c (λ j value,
        m ← gets matrix; x ← load src j a; mret (value + m i j * x)%float) 0%float;
      store dst set_dst i b value)) (λ _, I (rows s)) (λ _, False)).
  { apply spec_for_range_count. intros i Hi s' ->.
    destruct (lookup_lt_is_Some_2 (dst s) i) as [h Hh]; [lia|].
    rewrite bind_gets, cols_set.
    assert (Hsum := weighted_sum_run (set_dst (stored s i) s) i).
    rewrite cols_set, src_set in Hsum.
    rewrite (bind_normal _ _ _ _ _ (Hsum Hsrc)).
    unfold mapped_value at 1. rewrite cols_set, src_set, matrix_set.
    fold (value s i).
    erewrite store_run.
    - unfold I. rewrite dst_set, set_set. f_equal. f_equal. apply mapped_S, Hh.
    - rewrite dst_set. unfold mapped. rewrite list_lookup_imap, Hh. simpl.
      case_decide; [lia|reflexivity].
    - eapply Hdst; eauto. }
  unfold map_loop. rewrite bind_gets.
  destruct (spec_run _ _ _ s Hloop) as ([] & s' & -> & ->); [|reflexivity].
  unfold I. by rewrite mapped_0, set_dst_id.
Qed.

End Kinematics.

Section Mapping.
Context {Link : Type} {link : ActuatorLink Link} {header : Header}.
Implicit Types (s : DynamixelHardware Link).

Lemma blank_imap (F : nat → HandlerVarType → HandlerVarType) (v : list HandlerVarType) :
  (∀ i h, blank (F i h) = blank h) → blank <$> imap F v = blank <$> v.
Proof.
  intros HF. apply list_eq. intros i.
  rewrite !list_lookup_fmap, list_lookup_imap.
  destruct (v !! i); simpl; [|done]. by rewrite HF.
Qed.

Lemma blank_joints_mapped s k :
  blank <$> joints_mapped s k = blank <$> hdl_joint_states_ s.
Proof.
  apply blank_imap. intros i h. case_decide; [apply blank_with_slot|done].
Qed.

Lemma same_layout_joint_states s J :
  blank <$> J = blank <$> hdl_joint_states_ s →
  same_layout s (set_hdl_joint_states_ J s).
Proof. intros HJ. by constructor. Qed.

Lemma same_layout_trans_commands s T :
  blank <$> T = blank <$> hdl_trans_commands_ s →
  same_layout s (set_hdl_trans_commands_ T s).
Proof. intros HT. by constructor. Qed.

Lemma same_layout_joint_commands s J :
  blank <$> J = blank <$> hdl_joint_commands_ s →
  same_layout s (set_hdl_joint_commands_ J s).
Proof. intros HJ. by constructor. Qed.

Lemma transmission_to_joint_run s k :
  k < 3 → well_formed s →
  transmission_to_joint k s
  = (Normal tt, set_hdl_joint_states_ (joints_mapped s k) s).
Proof.
  intros Hk Hwf.
  apply (map_loop_run num_of_joints_ num_of_transmissions_
           transmission_to_joint_matrix_ hdl_trans_states_ hdl_joint_states_
           set_hdl_joint_states_ k k); try reflexivity.
  - by intros [].
  - apply Hwf.
  - intros j Hj.
    destruct (lookup_lt_is_Some_2 (hdl_trans_states_ s) j) as [h Hh];
      [pose proof (wf_trans_states s Hwf); lia|].
    exists h. split; [done|].
    pose proof (Forall_lookup_1 _ _ _ _ (wf_trans_state_slots s Hwf) Hh) as [_ ?].
    lia.
  - intros i h _ Hh.
    pose proof (Forall_lookup_1 _ _ _ _ (wf_joint_state_slots s Hwf) Hh) as [_ ?].
    lia.
Qed.

Lemma CalcTransmissionToJoint_run s :
  well_formed s →
  CalcTransmissionToJoint s
  = (Normal tt, set_hdl_joint_states_ (joints_mapped_all s) s).
Proof.
  intros Hwf. unfold CalcTransmissionToJoint.
  pose (s1 := set_hdl_joint_states_ (joints_mapped s PRESENT_POSITION_INDEX) s).
  assert (Hwf1 : well_formed s1).
  { eapply well_formed_layout; [|exact Hwf].
    apply same_layout_joint_states, blank_joints_mapped. }
  pose (s2 := set_hdl_joint_states_ (joints_mapped s1 PRESENT_VELOCITY_INDEX) s1).
  assert (Hwf2 : well_formed s2).
  { eapply well_formed_layout; [|exact Hwf1].
    apply same_layout_joint_states, blank_joints_mapped. }
  rewrite (bind_normal _ _ s tt s1)
    by (apply transmission_to_joint_run; [unfold PRESENT_POSITION_INDEX; lia|done]).
  rewrite (bind_normal _ _ s1 tt s2)
    by (apply transmission_to_joint_run; [unfold PRESENT_VELOCITY_INDEX; lia|done]).
  rewrite transmission_to_joint_run
    by (unfold PRESENT_ERROT_INDEX; first [lia|done]).
  f_equal.
  change (set_hdl_joint_states_ (joints_mapped s2 PRESENT_ERROT_INDEX) s
          = set_hdl_joint_states_ (joints_mapped_all s) s).
  f_equal. unfold joints_mapped_all, s2, s1, joints_mapped, joint_value. simpl.
  apply list_eq. intros i. rewrite !list_lookup_imap.
  destruct (hdl_joint_states_ s !! i); simpl; [|done].
  by repeat case_decide.
Qed.

Lemma CalcJointToTransmission_run s :
  well_formed s →
  CalcJointToTransmission s
  = (Normal tt, set_hdl_trans_commands_ (transmissions_mapped s) s).
Proof.
  intros Hwf.
  apply (map_loop_run num_of_transmissions_ num_of_joints_
           joint_to_transmission_matrix_ hdl_joint_commands_ hdl_trans_commands_
           set_hdl_trans_commands_ 0 0); try reflexivity.
  - by intros [].
  - apply Hwf.
  - intros j Hj.
    destruct (lookup_lt_is_Some_2 (hdl_joint_commands_ s) j) as [h Hh];
      [pose proof (wf_joint_commands s Hwf); lia|].
    exists h. split; [done|].
    pose proof (Forall_lookup_1 _ _ _ _ (wf_joint_command_slots s Hwf) Hh) as [_ ?].
    lia.
  - intros i h _ Hh.
    pose proof (Forall_lookup_1 _ _ _ _ (wf_trans_command_slots s Hwf) Hh) as Hlen.
    simpl in Hlen. lia.
Qed.

(** The slots of the mapped handlers. *)
Lemma joints_mapped_all_slot s i k :
  well_formed s → i < num_of_joints_ s → k < 3 →
  slot k (joints_mapped_all s) i = joint_value s k i.
Proof.
  intros Hwf Hi Hk.
  destruct (lookup_lt_is_Some_2 (hdl_joint_states_ s) i) as [h Hh];
    [pose proof (wf_joint_states s Hwf); lia|].
  pose proof (Forall_lookup_1 _ _ _ _ (wf_joint_state_slots s Hwf) Hh) as [_ Hlen].
  unfold slot, joints_mapped_all. rewrite list_lookup_imap, Hh. simpl.
  rewrite decide_True by done. simpl.
  unfold PRESENT_ERROT_INDEX, PRESENT_VELOCITY_INDEX, PRESENT_POSITION_INDEX.
  destruct k as [|[|[|k]]]; [| | |lia].
  - rewrite !list_lookup_insert_ne by done.
    rewrite list_lookup_insert_eq by lia. reflexivity.
  - rewrite list_lookup_insert_ne by done.
    rewrite list_lookup_insert_eq by (rewrite length_insert; lia). reflexivity.
  - rewrite list_lookup_insert_eq by (rewrite !length_insert; lia). reflexivity.
Qed.

Lemma joints_mapped_all_other s i k :
  3 ≤ k → slot k (joints_mapped_all s) i = slot k (hdl_joint_states_ s) i.
Proof.
  intros Hk. unfold slot, joints_mapped_all. rewrite list_lookup_imap.
  destruct (hdl_joint_states_ s !! i) as [h|]; simpl; [|done].
  case_decide; simpl; [|done].
  unfold PRESENT_ERROT_INDEX, PRESENT_VELOCITY_INDEX, PRESENT_POSITION_INDEX.
  rewrite !list_lookup_insert_ne by lia. reflexivity.
Qed.

Lemma transmissions_mapped_slot s i :
  well_formed s → i < num_of_transmissions_ s →
  slot 0 (transmissions_mapped s) i = transmission_value s i.
Proof.
  intros Hwf Hi.
  destruct (lookup_lt_is_Some_2 (hdl_trans_commands_ s) i) as [h Hh];
    [pose proof (wf_trans_commands s Hwf); lia|].
  pose proof (Forall_lookup_1 _ _ _ _ (wf_trans_command_slots s Hwf) Hh) as Hlen.
  simpl in Hlen. unfold slot, transmissions_mapped. rewrite list_lookup_imap, Hh. simpl.
  rewrite decide_True by done. simpl.
  rewrite list_lookup_insert_eq by lia. reflexivity.
Qed.

Lemma transmissions_mapped_other s i k :
  0 < k → slot k (transmissions_mapped s) i = slot k (hdl_trans_commands_ s) i.
Proof.
  intros Hk. unfold slot, transmissions_mapped. rewrite list_lookup_imap.
  destruct (hdl_trans_commands_ s !! i) as [h|]; simpl; [|done].
  case_decide; simpl; [|done].
  rewrite list_lookup_insert_ne by lia. reflexivity.
Qed.

Lemma weighted_sum_ext (row x y : nat → float) (n : nat) :
  (∀ j, j < n → x j = y j) → weighted_sum row x n = weighted_sum row y n.
Proof.
  intros Hxy. unfold weighted_sum.
  assert (Hin : ∀ j, j ∈ seq 0 n → x j = y j).
  { intros j Hj. apply Hxy. apply elem_of_seq in Hj. lia. }
  generalize 0%float. induction (seq 0 n) as [|j l IH]; intros value; simpl; [done|].
  rewrite (Hin j) by (by left). apply IH. intros j' Hj'. apply Hin. by right.
Qed.

(** The transmission commands are a function of the first slots of the joint
    commands: the other slots of the joint commands are not read. *)
Lemma transmissions_mapped_first_slot s (commands : list HandlerVarType) :
  (∀ j, j < num_of_joints_ s →
     slot 0 commands j = slot 0 (hdl_joint_commands_ s) j) →
  transmissions_mapped (set_hdl_joint_commands_ commands s) = transmissions_mapped s.
Proof.
  intros Hfirst. unfold transmissions_mapped. simpl.
  apply imap_ext. intros i h _. case_decide; [|done]. f_equal.
  unfold transmission_value. simpl. by apply weighted_sum_ext.
Qed.

(** C8, as the code has it.  On a well-formed object both mappings return
    and change nothing but their destination slots.
    [CalcTransmissionToJoint] maps three channels with the one matrix: slot
    [k] of joint [i], for position, velocity and effort, becomes
    [Σ_j transmission_to_joint_matrix_[i][j] * transmission[j]], the sum over
    slot [k] of the transmission states, and the other slots of the joint
    states keep their values.  [CalcJointToTransmission] maps one channel with
    [joint_to_transmission_matrix_]: the first slot of transmission command
    [i] becomes the sum over the first slots of the joint commands; the other
    slots of the transmission commands keep their values and the other slots
    of the joint commands are not read.  Both results are functions of the
    matrices and the source slots alone. *)
Theorem kinematic_mapping s :
  well_formed s →
  CalcTransmissionToJoint s
    = (Normal tt, set_hdl_joint_states_ (joints_mapped_all s) s) ∧
  CalcJointToTransmission s
    = (Normal tt, set_hdl_trans_commands_ (transmissions_mapped s) s) ∧
  (∀ i k, i < num_of_joints_ s → k < 3 →
     slot k (joints_mapped_all s) i = joint_value s k i) ∧
  (∀ i k, 3 ≤ k → slot k (joints_mapped_all s) i = slot k (hdl_joint_states_ s) i) ∧
  (∀ i, i < num_of_transmissions_ s →
     slot 0 (transmissions_mapped s) i = transmission_value s i) ∧
  (∀ i k, 0 < k →
     slot k (transmissions_mapped s) i = slot k (hdl_trans_commands_ s) i) ∧
  (∀ commands : list HandlerVarType,
     (∀ j, j < num_of_joints_ s →
        slot 0 commands j = slot 0 (hdl_joint_commands_ s) j) →
     transmissions_mapped (set_hdl_joint_commands_ commands s)
     = transmissions_mapped s).
Proof.
  intros Hwf. split; [by apply CalcTransmissionToJoint_run|].
  split; [by apply CalcJointToTransmission_run|].
  split; [intros i k; by apply joints_mapped_all_slot|].
  split; [intros i k; by apply joints_mapped_all_other|].
  split; [intros i; by apply transmissions_mapped_slot|].
  split; [intros i k; by apply transmissions_mapped_other|].
  apply transmissions_mapped_first_slot.
Qed.

End Mapping.

(** ** The resynchronisation of the joint commands *)

Section Sync.
Context {Link : Type} {link : ActuatorLink Link} {header : Header}.
Implicit Types (s : DynamixelHardware Link) (D : nat → HandlerVarType → Prop).

Lemma sync_progress_weaken states commands D D' s :
  (∀ c cmd, commands !! c = Some cmd → D' c cmd → D c cmd) →
  sync_progress (Link:=Link) states commands D s → sync_progress (Link:=Link) states commands D' s.
Proof.
  intros HD Hs c cmd Hc. destruct (Hs c cmd Hc) as (cmd' & Hc' & Hor & Hd).
  exists cmd'. split; [done|]. split; [done|]. intros HD'. apply Hd, (HD c cmd Hc HD').
Qed.

Lemma with_slot_with_slot k x y h : with_slot k x (with_slot k y h) = with_slot k x h.
Proof. unfold with_slot. simpl. by rewrite list_insert_insert_eq. Qed.

Lemma synced_shape states cmd cmd' :
  cmd' = cmd ∨ synced states cmd cmd' →
  name cmd' = name cmd ∧ interface_name_vec cmd' = interface_name_vec cmd ∧
  length (value_ptr_vec cmd') = length (value_ptr_vec cmd).
Proof.
  intros [->|(st & i & x & _ & _ & _ & ->)]; [done|].
  simpl. by rewrite length_insert.
Qed.

Lemma sync_progress_store states commands D s k cmd st i x cur
    (f : DynamixelHardware Link → DynamixelHardware Link) :
  sync_progress (Link:=Link) states commands D s →
  commands !! k = Some cmd → st ∈ states → matches st i cmd →
  value_ptr_vec st !! i = Some x →
  hdl_joint_commands_ s !! k = Some cur →
  (∀ s', hdl_joint_commands_ (f s') = hdl_joint_commands_ s') →
  sync_progress (Link:=Link) states commands (λ c cmd, D c cmd ∨ c = k)
    (f (set_hdl_joint_commands_ (<[k := with_slot 0 x cur]> (hdl_joint_commands_ s)) s)).
Proof.
  intros Hs Hk Hst Hm Hx Hcur Hf c cmd0 Hc. rewrite Hf. simpl.
  destruct (Hs c cmd0 Hc) as (cmd' & Hc' & Hor & Hd).
  destruct (decide (c = k)) as [->|Hne].
  - assert (cmd0 = cmd) as -> by congruence.
    assert (cmd' = cur) as -> by congruence.
    exists (with_slot 0 x cur).
    rewrite list_lookup_insert_eq by (eapply lookup_lt_Some, Hcur).
    assert (Hsync : synced states cmd (with_slot 0 x cur)).
    { exists st, i, x. split; [done|]. split; [done|]. split; [done|].
      destruct Hor as [->|(st' & i' & x' & _ & _ & _ & ->)]; [done|].
      apply with_slot_with_slot. }
    auto.
  - exists cmd'. rewrite list_lookup_insert_ne by done.
    split; [done|]. split; [done|]. intros [HD|?]; [auto|done].
Qed.

(** Run on a well-formed object, the loop returns, and afterwards every
    command handler for which some state interface matches is synchronised;
    the others are as they were. *)
Lemma sync_joint_commands_spec shown s0 :
  well_formed s0 →
  spec (eq s0) (sync_joint_commands shown)
    (λ _, sync_progress (Link:=Link) (hdl_joint_states_ s0) (hdl_joint_commands_ s0)
            (λ c cmd, ∃ st i, st ∈ hdl_joint_states_ s0 ∧ matches st i cmd))
    (λ _, False).
Proof.
  intros Hwf.
  set (states := hdl_joint_states_ s0). set (commands := hdl_joint_commands_ s0).
  pose (visited := λ (done : list HandlerVarType) (c : nat) (cmd : HandlerVarType),
          ∃ st i, st ∈ done ∧ matches st i cmd).
  intros s <-. unfold sync_joint_commands. rewrite !bind_gets.
  fold states commands.
  assert (Hloop : spec (sync_progress (Link:=Link) states commands (visited []))
    (for_each states (λ it_states,
      for_range (length commands) (λ c,
        v ← gets hdl_joint_commands_; it_commands ← at_ v c;
        if bool_decide (name it_states = name it_commands) then
          for_range (length (interface_name_vec it_states)) (λ i,
            command ← at_ (interface_name_vec it_commands) 0;
            state ← at_ (interface_name_vec it_states) i;
            if bool_decide (command = state) then
              x ← at_ (value_ptr_vec it_states) i;
              store hdl_joint_commands_ set_hdl_joint_commands_ c 0 x;;
              log (INFO_Sync command (shown x) state (shown x))
            else mret tt)
        else mret tt)))
    (λ _, sync_progress (Link:=Link) states commands (visited states)) (λ _, False)).
  { apply (spec_for_each_prefix (λ done, sync_progress (Link:=Link) states commands (visited done))).
    intros done st rest Hstates.
    assert (Hst : st ∈ states) by (rewrite Hstates; set_solver).
    assert (Hpar : parallel st).
    { pose proof (wf_joint_state_slots s0 Hwf) as Hall.
      rewrite Forall_forall in Hall. apply (Hall st Hst). }
    (* the commands, for this state handler *)
    apply (spec_for_range_with (λ k, sync_progress (Link:=Link) states commands
             (λ c cmd, visited done c cmd ∨ (c < k ∧ ∃ i, matches st i cmd)))).
    { intros s. apply sync_progress_weaken. intros c cmd _ [?|[? _]]; [done|lia]. }
    { intros s. apply sync_progress_weaken.
        intros c cmd Hc (st' & i & Hin & Hm).
        apply elem_of_app in Hin as [Hin|Hin%list_elem_of_singleton].
        - left. by exists st', i.
        - subst st'. right. split; [eapply lookup_lt_Some, Hc|by exists i]. }
    intros k Hk.
    destruct (lookup_lt_is_Some_2 commands k Hk) as [cmd Hcmd].
    assert (Hcmd1 : 1 ≤ length (interface_name_vec cmd) ∧ 1 ≤ length (value_ptr_vec cmd)).
    { apply (Forall_lookup_1 _ _ _ _ (wf_joint_command_slots s0 Hwf) Hcmd). }
    apply spec_bind_gets_pure. intros v (s & Hs & <-).
    destruct (Hs k cmd Hcmd) as (cur & Hcur & Hor & _).
    apply (spec_bind_at _ _ _ cur); [done|].
    destruct (synced_shape _ _ _ Hor) as (Hname & Hnames & Hlen).
    clear s Hs Hcur Hor.
    case_bool_decide as Hsame.
    - (* the interfaces of the state handler, for this command handler *)
      apply (spec_for_range_with (λ j, sync_progress (Link:=Link) states commands
               (λ c cmd', visited done c cmd' ∨ (c < k ∧ ∃ i, matches st i cmd') ∨
                          (c = k ∧ ∃ i, i < j ∧ matches st i cmd')))).
      { intros s. apply sync_progress_weaken.
        intros c cmd' _ [?|[?|[_ (i & ? & _)]]]; [by left|by right|lia]. }
      { intros s. apply sync_progress_weaken.
          intros c cmd' Hc [?|[Hlt (i & Hm)]]; [by left|].
          destruct (decide (c = k)) as [->|Hne].
          - right. right. split; [done|]. exists i. split; [|done].
            destruct Hm as (_ & item & _ & Hi). eapply lookup_lt_Some, Hi.
          - right. left. split; [lia|by exists i]. }
      intros j Hj.
      destruct (lookup_lt_is_Some_2 (interface_name_vec cur) 0) as [command Hcommand];
        [rewrite Hnames; lia|].
      destruct (lookup_lt_is_Some_2 (interface_name_vec st) j Hj) as [state Hstate].
      apply (spec_bind_at _ _ _ command); [done|].
      apply (spec_bind_at _ _ _ state); [done|].
      case_bool_decide as Hitem.
      + destruct (lookup_lt_is_Some_2 (value_ptr_vec st) j) as [x Hx];
          [rewrite <- Hpar; done|].
        apply (spec_bind_at _ _ _ x); [done|].
        intros s Hs. destruct (Hs k cmd Hcmd) as (cur' & Hcur' & Hor' & _).
        destruct (synced_shape _ _ _ Hor') as (_ & _ & Hlen').
        erewrite bind_normal; [|apply (store_run _ _ k 0 x s cur' Hcur'); lia].
        unfold log, modify.
        eapply sync_progress_weaken;
          [|eapply (sync_progress_store _ _ _ s k cmd st j x cur'
                      (λ s', set_logger_ _ s')); eauto].
        * intros c cmd' Hc [?|[?|[-> _]]];
            [left; by left|left; right; by left|by right].
        * split; [congruence|]. exists command. split; [congruence|congruence].
      + apply spec_ret. intros s. apply sync_progress_weaken.
        intros c cmd' Hc [?|[?|[-> (i & Hi & Hm)]]]; [by left|by right; left|].
        right. right. split; [done|]. exists i. split; [|done].
        destruct (decide (i = j)) as [->|]; [|lia].
        destruct Hm as (_ & item & Hc0 & Hij).
        assert (cmd' = cmd) as -> by congruence.
        rewrite <- Hnames in Hc0. congruence.
    - apply spec_ret. intros s. apply sync_progress_weaken.
      intros c cmd' Hc [?|[Hlt (i & Hm)]]; [by left|].
      right. split; [|by exists i].
      destruct (decide (c = k)) as [->|]; [|lia].
      assert (cmd' = cmd) as -> by congruence.
      destruct Hm as [Hm _]. congruence. }
  specialize (Hloop s0).
  destruct (for_each _ _ s0) as [[[]|e] s'].
  - apply Hloop. intros c cmd Hc. exists cmd. split; [done|]. split; [by left|].
    intros (st & i & Hin & _). set_solver.
  - apply Hloop. intros c cmd Hc. exists cmd. split; [done|]. split; [by left|].
    intros (st & i & Hin & _). set_solver.
Qed.

End Sync.

(** ** What a command leaves alone *)

Section Untouched.
Context {Link : Type} {link : ActuatorLink Link} {header : Header}.
Implicit Types (s : DynamixelHardware Link).

Lemma same_layout_store_joint_states s0 s i j x h :
  same_layout s0 s → hdl_joint_states_ s !! i = Some h →
  same_layout s0 (set_hdl_joint_states_
    (<[i := set_value_ptr_vec (<[j := x]> (value_ptr_vec h)) h]> (hdl_joint_states_ s)) s).
Proof.
  intros [] Hh. constructor; simpl; try assumption.
  rewrite (blank_insert _ _ h) by (done || apply (blank_with_slot j x h)). done.
Qed.

Lemma same_layout_store_joint_commands s0 s i j x h :
  same_layout s0 s → hdl_joint_commands_ s !! i = Some h →
  same_layout s0 (set_hdl_joint_commands_
    (<[i := set_value_ptr_vec (<[j := x]> (value_ptr_vec h)) h]> (hdl_joint_commands_ s)) s).
Proof.
  intros [] Hh. constructor; simpl; try assumption.
  rewrite (blank_insert _ _ h) by (done || apply (blank_with_slot j x h)). done.
Qed.

Lemma same_layout_store_sensor_states s0 s i j x h :
  same_layout s0 s → hdl_sensor_states_ s !! i = Some h →
  same_layout s0 (set_hdl_sensor_states_
    (<[i := set_value_ptr_vec (<[j := x]> (value_ptr_vec h)) h]> (hdl_sensor_states_ s)) s).
Proof.
  intros [] Hh. constructor; simpl; try assumption.
  rewrite (blank_insert _ _ h) by (done || apply (blank_with_slot j x h)). done.
Qed.

Lemma same_layout_refresh s0 s upd :
  same_layout s0 s →
  same_layout s0 (set_hdl_trans_states_ (refresh upd <$> hdl_trans_states_ s) s).
Proof.
  intros []. constructor; simpl; try assumption.
  rewrite <- list_fmap_compose.
  rewrite (list_fmap_ext (blank ∘ refresh upd) blank _)
    by (intros; apply blank_refresh).
  done.
Qed.

End Untouched.

(** An assignment to a member that is no handler vector, a call on the link
    and a store into a slot keep the layout. *)
Ltac layout_leaf :=
  first
    [ by eapply same_layout_store_joint_states
    | by eapply same_layout_store_joint_commands
    | by eapply same_layout_store_sensor_states
    | by apply same_layout_refresh
    | lazymatch goal with
      | H : same_layout _ _ |- _ => destruct H; constructor; simpl; assumption
      end ].

(** An assignment keeps "equal but for the joint commands and the log". *)
Ltac frame_leaf :=
  idtac;
  lazymatch goal with
  | H : commands_and_log_of _ ?s |- _ =>
      unfold commands_and_log_of in *; simpl; rewrite H; reflexivity
  end.

(** An assignment that leaves the member [member] alone keeps its value. *)
Ltac member_leaf := simpl; assumption.

Section Torque.
Context {Link : Type} {link : ActuatorLink Link} {header : Header}.
Implicit Types (s : DynamixelHardware Link).

Lemma sync_joint_commands_layout shown s0 :
  invariant (same_layout s0) (sync_joint_commands shown).
Proof. invariant_with layout_leaf. Qed.

Lemma sync_joint_commands_frame shown s0 :
  invariant (commands_and_log_of s0) (sync_joint_commands shown).
Proof.
  invariant_with frame_leaf.
Qed.

Lemma call_run {A} (op : Link → Link * A) (ev : A → LinkCall) s :
  call op ev s
  = (Normal (op (dxl_comm_ s)).2,
     set_io_ (io_ s ++ [ev (op (dxl_comm_ s)).2])
       (set_now_us (now_us s + Z.of_N (busy_us (op (dxl_comm_ s)).1))%Z
          (set_dxl_comm_ (op (dxl_comm_ s)).1 s))).
Proof. unfold call. by destruct (op (dxl_comm_ s)). Qed.

Lemma bind_call {A B} (op : Link → Link * A) (ev : A → LinkCall)
    (k : A → M (DynamixelHardware Link) B) s :
  (call op ev ≫= k) s
  = k (op (dxl_comm_ s)).2
      (set_io_ (io_ s ++ [ev (op (dxl_comm_ s)).2])
         (set_now_us (now_us s + Z.of_N (busy_us (op (dxl_comm_ s)).1))%Z
            (set_dxl_comm_ (op (dxl_comm_ s)).1 s))).
Proof. apply bind_normal, call_run. Qed.

Lemma bind_log {B} (e : LogEntry) (k : unit → M (DynamixelHardware Link) B) s :
  (log e ≫= k) s = k tt (set_logger_ (logger_ s ++ [e]) s).
Proof. reflexivity. Qed.

Lemma bind_usleep {B} (us : Z) (k : unit → M (DynamixelHardware Link) B) s :
  (usleep us ≫= k) s = k tt (set_now_us (now_us s + us)%Z s).
Proof. reflexivity. Qed.

Lemma sync_joint_commands_run shown s :
  well_formed s →
  ∃ s', sync_joint_commands shown s = (Normal tt, s') ∧
        same_layout s s' ∧ commands_and_log_of s s' ∧
        sync_progress (Link:=Link) (hdl_joint_states_ s) (hdl_joint_commands_ s)
          (matched (hdl_joint_states_ s)) s'.
Proof.
  intros Hwf.
  destruct (spec_run _ _ _ s (sync_joint_commands_spec shown s Hwf) eq_refl)
    as ([] & s' & Hrun & Hsync).
  exists s'. split; [done|].
  pose proof (invariant_run _ _ s (sync_joint_commands_layout shown s)
                (same_layout_refl s)) as Hlayout.
  pose proof (invariant_run (commands_and_log_of s) _ s
                (sync_joint_commands_frame shown s)) as Hframe.
  rewrite Hrun in Hlayout, Hframe. simpl in Hlayout, Hframe.
  split; [done|]. split; [|done]. apply Hframe. by destruct s.
Qed.

Lemma ChangeDxlTorqueState_run s :
  well_formed s →
  ∃ commands lines l now calls state,
    ChangeDxlTorqueState s
      = (Normal tt, torque_applied s commands lines l now calls state) ∧
    calls = io_ s ++ torque_calls (dxl_torque_status_ s) (dxl_id_ s)
                  ++ [io_GetDxlTorqueState state] ∧
    blank <$> commands = blank <$> hdl_joint_commands_ s ∧
    (requested (dxl_torque_status_ s) →
       sync_progress (Link:=Link) (hdl_joint_states_ s) (hdl_joint_commands_ s)
         (matched (hdl_joint_states_ s)) (set_hdl_joint_commands_ commands s)) ∧
    (¬ requested (dxl_torque_status_ s) → commands = hdl_joint_commands_ s).
Proof.
  intros Hwf. unfold ChangeDxlTorqueState. rewrite !bind_gets.
  assert (Hrequested : ∀ (op : list Z → Link → Link * DxlError.t) ev line,
    ∃ commands lines l now calls state,
      ((log line;; call (op (dxl_id_ s)) (λ _, ev);; SyncJointCommandWithStates);;
       state ← call GetDxlTorqueState io_GetDxlTorqueState;
       modify (set_dxl_torque_state_ state);;
       modify (set_dxl_torque_status_ (torque_status_of (map_to_list state)))) s
      = (Normal tt, torque_applied s commands lines l now calls state) ∧
      calls = io_ s ++ [ev] ++ [io_GetDxlTorqueState state] ∧
      blank <$> commands = blank <$> hdl_joint_commands_ s ∧
      sync_progress (Link:=Link) (hdl_joint_states_ s) (hdl_joint_commands_ s)
        (matched (hdl_joint_states_ s)) (set_hdl_joint_commands_ commands s)).
  { intros op ev line.
    pose (s1 := set_io_ (io_ s ++ [ev])
      (set_now_us (now_us s + Z.of_N (busy_us (op (dxl_id_ s) (dxl_comm_ s)).1))%Z
         (set_dxl_comm_ (op (dxl_id_ s) (dxl_comm_ s)).1
            (set_logger_ (logger_ s ++ [line]) s)))).
    assert (Hwf1 : well_formed s1).
    { eapply well_formed_layout; [|exact Hwf]. by constructor. }
    destruct (sync_joint_commands_run (λ x, x) s1 Hwf1)
      as (s2 & Hrun & Hlayout & Hframe & Hsync).
    exists (hdl_joint_commands_ s2), (logger_ s2),
      (GetDxlTorqueState (dxl_comm_ s1)).1,
      (now_us s1 + Z.of_N (busy_us (GetDxlTorqueState (dxl_comm_ s1)).1))%Z,
      (io_ s1 ++ [io_GetDxlTorqueState (GetDxlTorqueState (dxl_comm_ s1)).2]),
      (GetDxlTorqueState (dxl_comm_ s1)).2.
    split; [|split; [|split]].
    - rewrite (bind_normal _ _ s tt s2).
      + rewrite (bind_normal _ _ _ _ _ (call_run _ _ s2)).
        rewrite !bind_modify. unfold modify, torque_applied.
        rewrite Hframe. reflexivity.
      + unfold log. rewrite bind_modify.
        rewrite (bind_normal _ _ _ _ _ (call_run _ _ _)). exact Hrun.
    - simpl. by rewrite <- app_assoc.
    - apply Hlayout.
    - intros c cmd Hc. destruct (Hsync c cmd Hc) as (cmd' & ? & ? & ?).
      exists cmd'. done. }
  destruct (dxl_torque_status_ s) eqn:Hstatus.
  - exists (hdl_joint_commands_ s), (logger_ s), (GetDxlTorqueState (dxl_comm_ s)).1,
      (now_us s + Z.of_N (busy_us (GetDxlTorqueState (dxl_comm_ s)).1))%Z,
      (io_ s ++ [io_GetDxlTorqueState (GetDxlTorqueState (dxl_comm_ s)).2]),
      (GetDxlTorqueState (dxl_comm_ s)).2.
    split; [|split; [done|split; [done|split; [intros [?|?]; done|done]]]].
    rewrite bind_ret, (bind_normal _ _ _ _ _ (call_run _ _ s)), !bind_modify.
    unfold modify, torque_applied. by destruct s.
  - exists (hdl_joint_commands_ s), (logger_ s), (GetDxlTorqueState (dxl_comm_ s)).1,
      (now_us s + Z.of_N (busy_us (GetDxlTorqueState (dxl_comm_ s)).1))%Z,
      (io_ s ++ [io_GetDxlTorqueState (GetDxlTorqueState (dxl_comm_ s)).2]),
      (GetDxlTorqueState (dxl_comm_ s)).2.
    split; [|split; [done|split; [done|split; [intros [?|?]; done|done]]]].
    rewrite bind_ret, (bind_normal _ _ _ _ _ (call_run _ _ s)), !bind_modify.
    unfold modify, torque_applied. by destruct s.
  - destruct (Hrequested DynamixelEnable (io_DynamixelEnable (dxl_id_ s))
                (cout "torque enalble"))
      as (commands & lines & l & now & calls & state & Hrun & ? & ? & ?).
    exists commands, lines, l, now, calls, state.
    split; [exact Hrun|]. split; [done|]. split; [done|]. split; [done|].
    intros Hno. destruct Hno. by left.
  - destruct (Hrequested DynamixelDisable (io_DynamixelDisable (dxl_id_ s))
                (cout "torque disalble"))
      as (commands & lines & l & now & calls & state & Hrun & ? & ? & ?).
    exists commands, lines, l, now, calls, state.
    split; [exact Hrun|]. split; [done|]. split; [done|]. split; [done|].
    intros Hno. destruct Hno. by right.
Qed.

End Torque.

(** ** The torque coordinator *)

Section TorqueClaims.
Context {Link : Type} {link : ActuatorLink Link} {header : Header}.
Implicit Types (s : DynamixelHardware Link).

Lemma torque_status_of_cases l :
  torque_status_of l = TORQUE_ENABLED ∨ torque_status_of l = TORQUE_DISABLED.
Proof. induction l as [|[dxl []] l IH]; simpl; auto. Qed.

Lemma torque_status_of_enabled l :
  torque_status_of l = TORQUE_ENABLED ↔ Forall (λ e, e.2 = true) l.
Proof.
  induction l as [|[dxl on] l IH]; simpl.
  - split; [constructor|done].
  - destruct on; simpl.
    + rewrite IH. split; [by constructor|by inversion 1].
    + split; [done|]. inversion 1; simplify_eq/=.
Qed.

Lemma torque_status_of_map (state : gmap Z bool) :
  (torque_status_of (map_to_list state) = TORQUE_ENABLED ↔
     map_Forall (λ _ on, on = true) state) ∧
  (torque_status_of (map_to_list state) = TORQUE_DISABLED ↔
     ∃ dxl, state !! dxl = Some false).
Proof.
  assert (Hen : torque_status_of (map_to_list state) = TORQUE_ENABLED ↔
                map_Forall (λ _ on, on = true) state).
  { rewrite torque_status_of_enabled, map_Forall_to_list.
    apply Forall_proper; [|done]. by intros []. }
  split; [exact Hen|]. split.
  - intros Hdis.
    destruct (decide (map_Forall (λ _ on, on = true) state)) as [Hall|Hnot].
    + apply Hen in Hall. congruence.
    + apply map_not_Forall in Hnot; [|apply _].
      destruct Hnot as (dxl & on & Hdxl & Hon). exists dxl.
      by destruct on.
  - intros [dxl Hdxl].
    destruct (torque_status_of_cases (map_to_list state)) as [Hall|]; [|done].
    apply Hen in Hall. specialize (Hall dxl false Hdxl). done.
Qed.

(** What [ChangeDxlTorqueState] has from the link when it returns: the map
    is the answer of the link to the query, made after the enable or disable
    call when a request was pending, and the status is read off this map. *)
Lemma ChangeDxlTorqueState_query s s' :
  ChangeDxlTorqueState s = (Normal tt, s') →
  dxl_comm_ s' = (GetDxlTorqueState (link_at_query s)).1 ∧
  dxl_torque_state_ s' = (GetDxlTorqueState (link_at_query s)).2 ∧
  io_ s' = io_ s ++ torque_calls (dxl_torque_status_ s) (dxl_id_ s)
                 ++ [io_GetDxlTorqueState (GetDxlTorqueState (link_at_query s)).2] ∧
  dxl_torque_status_ s'
  = torque_status_of (map_to_list (GetDxlTorqueState (link_at_query s)).2).
Proof.
  unfold ChangeDxlTorqueState. rewrite !bind_gets. intros Hrun.
  apply bind_inv in Hrun as ([] & s1 & Hfirst & Hrun).
  rewrite (bind_normal _ _ _ _ _ (call_run _ _ s1)), !bind_modify in Hrun.
  unfold modify in Hrun. injection Hrun as <-. simpl.
  assert (Hs1 : dxl_comm_ s1 = link_at_query s ∧
                io_ s1 = io_ s ++ torque_calls (dxl_torque_status_ s) (dxl_id_ s)).
  { assert (Hrequested : ∀ (op : list Z → Link → Link * DxlError.t) ev line,
      (log line;; call (op (dxl_id_ s)) (λ _, ev);; SyncJointCommandWithStates) s
      = (Normal tt, s1) →
      dxl_comm_ s1 = (op (dxl_id_ s) (dxl_comm_ s)).1 ∧ io_ s1 = io_ s ++ [ev]).
    { intros op ev line Hsync. rewrite bind_log, bind_call in Hsync.
      match type of Hsync with
      | SyncJointCommandWithStates ?x = _ =>
          pose proof (invariant_run (commands_and_log_of x) _ x
                        (sync_joint_commands_frame (λ v, v) x)) as Hframe;
          unfold SyncJointCommandWithStates in Hsync; rewrite Hsync in Hframe;
          simpl in Hframe;
          assert (Hx : commands_and_log_of x x)
            by (unfold commands_and_log_of; by destruct s);
          specialize (Hframe Hx)
      end.
      unfold commands_and_log_of in Hframe. rewrite Hframe. simpl. done. }
    unfold link_at_query. destruct (dxl_torque_status_ s).
    - injection Hfirst as <-. simpl. by rewrite app_nil_r.
    - injection Hfirst as <-. simpl. by rewrite app_nil_r.
    - by apply (Hrequested DynamixelEnable _ _ Hfirst).
    - by apply (Hrequested DynamixelDisable _ _ Hfirst). }
  destruct Hs1 as [-> ->]. rewrite <- app_assoc. done.
Qed.

(** C5. The torque step queries the link for the torque state of every
    actuator, after the enable or disable call when a request is pending.
    When the step returns, as it does on a well-formed object, the map it
    keeps is the one the link returned to this query, and the torque status
    is Enabled if and only if every id in that map reports enabled, and
    Disabled if and only if some id reports disabled: one disabled actuator
    vetoes. *)
Theorem torque_status_after_query s :
  (well_formed s → ∃ s', ChangeDxlTorqueState s = (Normal tt, s')) ∧
  ∀ s', ChangeDxlTorqueState s = (Normal tt, s') →
    dxl_comm_ s' = (GetDxlTorqueState (link_at_query s)).1 ∧
    dxl_torque_state_ s' = (GetDxlTorqueState (link_at_query s)).2 ∧
    io_ s' = io_ s ++ torque_calls (dxl_torque_status_ s) (dxl_id_ s)
               ++ [io_GetDxlTorqueState (GetDxlTorqueState (link_at_query s)).2] ∧
    (dxl_torque_status_ s' = TORQUE_ENABLED ↔
       map_Forall (λ _ on, on = true) (GetDxlTorqueState (link_at_query s)).2) ∧
    (dxl_torque_status_ s' = TORQUE_DISABLED ↔
       ∃ dxl, (GetDxlTorqueState (link_at_query s)).2 !! dxl = Some false).
Proof.
  split.
  - intros Hwf.
    destruct (ChangeDxlTorqueState_run s Hwf)
      as (commands & lines & l & now & calls & state & Hrun & _). eauto.
  - intros s' Hrun.
    destruct (ChangeDxlTorqueState_query s s' Hrun) as (Hlink & Hstate & Hio & ->).
    split; [exact Hlink|]. split; [exact Hstate|]. split; [exact Hio|].
    apply torque_status_of_map.
Qed.

Lemma torque_applied_layout s commands lines l now calls state :
  blank <$> commands = blank <$> hdl_joint_commands_ s →
  same_layout s (torque_applied s commands lines l now calls state).
Proof. intros Hb. by constructor. Qed.

(** The write path, run on a well-formed object. *)
Lemma write_accepted s :
  dxl_status_ s = DXL_OK ∨ dxl_status_ s = HW_ERROR → well_formed s →
  ∃ s' state,
    write s = (Normal return_type.OK, s') ∧
    io_ s' = io_ s ++ [io_WriteItemBuf]
               ++ torque_calls (dxl_torque_status_ s) (dxl_id_ s)
               ++ [io_GetDxlTorqueState state;
                   io_WriteMultiDxlData (hdl_trans_commands_ s')] ∧
    (dxl_torque_status_ s' = TORQUE_ENABLED ∨
     dxl_torque_status_ s' = TORQUE_DISABLED) ∧
    ∀ i, i < num_of_transmissions_ s' →
      slot 0 (hdl_trans_commands_ s') i = transmission_value s' i.
Proof.
  intros Hs Hwf.
  assert (Hwrite : write s
    = (call WriteItemBuf (λ _, io_WriteItemBuf);;
       ChangeDxlTorqueState;;
       CalcJointToTransmission;;
       commands ← gets hdl_trans_commands_;
       call (WriteMultiDxlData commands) (λ _, io_WriteMultiDxlData commands);;
       mret return_type.OK) s).
  { unfold write. rewrite bind_gets. by destruct Hs as [->| ->]. }
  rewrite Hwrite. clear Hwrite.
  rewrite (bind_normal _ _ _ _ _ (call_run _ _ s)).
  set (s1 := set_io_ _ _).
  assert (Hwf1 : well_formed s1).
  { eapply well_formed_layout; [|exact Hwf]. by constructor. }
  destruct (ChangeDxlTorqueState_run s1 Hwf1)
    as (commands & lines & l & now & calls & state & Hrun & -> & Hb & _).
  rewrite (bind_normal _ _ _ _ _ Hrun).
  set (s2 := torque_applied _ _ _ _ _ _ _).
  assert (Hwf2 : well_formed s2).
  { eapply well_formed_layout; [|exact Hwf1]. by apply torque_applied_layout. }
  rewrite (bind_normal _ _ _ _ _ (CalcJointToTransmission_run s2 Hwf2)).
  rewrite bind_gets, (bind_normal _ _ _ _ _ (call_run _ _ _)).
  eexists _, state. split; [reflexivity|]. split; [|split].
  - simpl. rewrite <- !app_assoc. reflexivity.
  - simpl. apply torque_status_of_cases.
  - simpl. intros i Hi. apply (transmissions_mapped_slot s2 i Hwf2 Hi).
Qed.

(** C10, as the code has it.  Every call of [ChangeDxlTorqueState] that
    returns, as it does on a well-formed object, leaves the torque status
    Enabled or Disabled, never a request, and Enabled when the map that the
    link returns to the query is empty.  A write tick runs the torque step
    only when it is accepted: with the communication status Ok or
    HardwareError the tick leaves the torque status Enabled or Disabled, and
    with CommError or Rebooting it is refused and leaves the object, a pending
    request included, as it was. *)
Theorem torque_status_settles s :
  (well_formed s → ∃ s', ChangeDxlTorqueState s = (Normal tt, s')) ∧
  (∀ s', ChangeDxlTorqueState s = (Normal tt, s') →
     (dxl_torque_status_ s' = TORQUE_ENABLED ∨
      dxl_torque_status_ s' = TORQUE_DISABLED) ∧
     ((GetDxlTorqueState (link_at_query s)).2 = ∅ →
      dxl_torque_status_ s' = TORQUE_ENABLED)) ∧
  (dxl_status_ s = DXL_OK ∨ dxl_status_ s = HW_ERROR → well_formed s →
     ∃ s', write s = (Normal return_type.OK, s') ∧
           (dxl_torque_status_ s' = TORQUE_ENABLED ∨
            dxl_torque_status_ s' = TORQUE_DISABLED)) ∧
  (dxl_status_ s = COMM_ERROR ∨ dxl_status_ s = REBOOTING →
     write s = (Normal return_type.ERROR, s)).
Proof.
  split; [|split; [|split]].
  - intros Hwf.
    destruct (ChangeDxlTorqueState_run s Hwf)
      as (commands & lines & l & now & calls & state & Hrun & _). eauto.
  - intros s' Hrun.
    destruct (ChangeDxlTorqueState_query s s' Hrun) as (_ & _ & _ & ->).
    split; [apply torque_status_of_cases|].
    intros ->. by rewrite map_to_list_empty.
  - intros Hs Hwf.
    destruct (write_accepted s Hs Hwf) as (s' & state & Hrun & _ & Ht & _). eauto.
  - intros [Hs|Hs]; unfold write; rewrite bind_gets, Hs; reflexivity.
Qed.

(** C3, as the code has it.  When the torque step finds a request pending on
    a well-formed object it makes the enable or disable call for the ids of
    [dxl_id_], then resynchronises the FIRST interface of every joint command
    handler: where a state interface of the same joint has the name of the
    command's first interface, the command's first slot gets the value of
    such a state interface and its other slots keep their values; a command
    handler without such a state interface is left as it was. *)
Theorem torque_request_resyncs_first_interface s :
  well_formed s → requested (dxl_torque_status_ s) →
  ∃ s' state,
    ChangeDxlTorqueState s = (Normal tt, s') ∧
    io_ s' = io_ s ++ torque_calls (dxl_torque_status_ s) (dxl_id_ s)
                   ++ [io_GetDxlTorqueState state] ∧
    hdl_joint_states_ s' = hdl_joint_states_ s ∧
    ∀ c cmd, hdl_joint_commands_ s !! c = Some cmd →
      ∃ cmd', hdl_joint_commands_ s' !! c = Some cmd' ∧
        (matched (hdl_joint_states_ s) c cmd →
           synced (hdl_joint_states_ s) cmd cmd') ∧
        (¬ matched (hdl_joint_states_ s) c cmd → cmd' = cmd).
Proof.
  intros Hwf Hreq.
  destruct (ChangeDxlTorqueState_run s Hwf)
    as (commands & lines & l & now & calls & state & Hrun & -> & _ & Hsync & _).
  eexists _, state. split; [exact Hrun|]. split; [reflexivity|].
  split; [reflexivity|]. intros c cmd Hc.
  destruct (Hsync Hreq c cmd Hc) as (cmd' & Hc' & Hor & Hd).
  exists cmd'. split; [exact Hc'|]. split; [exact Hd|].
  intros Hno. destruct Hor as [|(st & i & x & Hin & Hm & _)]; [done|].
  destruct Hno. by exists st, i.
Qed.

(** With the names of the joints and of a handler's interfaces unique, the
    value that a synchronised command holds is that of the one state
    interface that matches. *)
Lemma synced_unique (states : list HandlerVarType) cmd cmd' st i :
  NoDup (name <$> states) →
  Forall (λ st, NoDup (interface_name_vec st)) states →
  1 ≤ length (value_ptr_vec cmd) →
  synced states cmd cmd' → st ∈ states → matches st i cmd →
  value_ptr_vec cmd' !! 0 = value_ptr_vec st !! i ∧
  ∀ k, 0 < k → value_ptr_vec cmd' !! k = value_ptr_vec cmd !! k.
Proof.
  intros Hnames Hitems Hlen (st' & i' & x & Hin' & [Hn' (item' & Hc' & Hi')] & Hx & ->)
    Hin [Hn (item & Hc & Hi)].
  assert (st' = st) as ->.
  { apply list_elem_of_lookup in Hin' as [a Ha], Hin as [b Hb].
    assert (a = b) as ->; [|congruence].
    apply (NoDup_lookup _ a b (name st) Hnames).
    - rewrite list_lookup_fmap, Ha. simpl. congruence.
    - by rewrite list_lookup_fmap, Hb. }
  assert (i' = i) as ->.
  { rewrite Forall_forall in Hitems.
    apply (NoDup_lookup _ i' i item (Hitems st Hin)); congruence. }
  simpl. split.
  - rewrite list_lookup_insert_eq by lia. done.
  - intros k Hk. rewrite list_lookup_insert_ne by lia. done.
Qed.

(** C2, as the code has it.  The write step is refused, with ERROR and
    nothing done, when the communication status is Rebooting or CommError.
    When it is Ok or HardwareError the write path is run: on a well-formed
    object the step returns OK after the buffered item writes, the torque
    step, the mapping of the joint commands to the transmission commands and
    the bulk write of the mapped commands, in this order. *)
Theorem write_gate s :
  (dxl_status_ s = REBOOTING ∨ dxl_status_ s = COMM_ERROR →
     write s = (Normal return_type.ERROR, s)) ∧
  (dxl_status_ s = DXL_OK ∨ dxl_status_ s = HW_ERROR → well_formed s →
     ∃ s' state,
       write s = (Normal return_type.OK, s') ∧
       io_ s' = io_ s ++ [io_WriteItemBuf]
                  ++ torque_calls (dxl_torque_status_ s) (dxl_id_ s)
                  ++ [io_GetDxlTorqueState state;
                      io_WriteMultiDxlData (hdl_trans_commands_ s')] ∧
       (dxl_torque_status_ s' = TORQUE_ENABLED ∨
        dxl_torque_status_ s' = TORQUE_DISABLED) ∧
       ∀ i, i < num_of_transmissions_ s' →
         slot 0 (hdl_trans_commands_ s') i = transmission_value s' i).
Proof.
  split.
  - intros [Hs|Hs]; unfold write; rewrite bind_gets, Hs; reflexivity.
  - apply write_accepted.
Qed.

End TorqueClaims.

(** ** The read step *)

Section ReadClaims.
Context {Link : Type} {link : ActuatorLink Link} {header : Header}.
Implicit Types (s : DynamixelHardware Link).

Lemma spec_call_layout {A} s0 (op : Link → Link * A) (ev : A → LinkCall) :
  spec (same_layout s0) (call op ev) (λ _, same_layout s0) (λ _, False).
Proof.
  intros s Hs. rewrite call_run. destruct Hs. constructor; simpl; assumption.
Qed.

(** On a well-formed object [ReadSensorData] returns. *)
Lemma ReadSensorData_runs s0 sensor :
  well_formed s0 →
  spec (same_layout s0) (ReadSensorData sensor) (λ _, same_layout s0) (λ _, False).
Proof.
  intros Hwf. unfold ReadSensorData.
  apply spec_for_each. intros item _.
  eapply spec_bind; [apply spec_call_layout|]. intros r. simpl.
  apply spec_bind_gets_pure. intros n (s & Hs & <-).
  apply spec_for_range. intros i Hi.
  apply spec_bind_gets_pure. intros v (s1 & Hs1 & <-).
  assert (Hlen : length (hdl_sensor_states_ s1) = length (hdl_sensor_states_ s)).
  { rewrite (blank_length _ _ (layout_sensor_states _ _ Hs1)).
    by rewrite (blank_length _ _ (layout_sensor_states _ _ Hs)). }
  destruct (lookup_lt_is_Some_2 (hdl_sensor_states_ s1) i) as [h Hh]; [lia|].
  apply (spec_bind_at _ _ _ h); [done|].
  destruct (blank_lookup _ _ i h (layout_sensor_states _ _ Hs1) Hh)
    as (h0 & Hh0 & Hb0).
  apply blank_eq in Hb0 as (_ & _ & Hnames & Hvalues).
  pose proof (Forall_lookup_1 _ _ _ _ (wf_sensor_state_slots s0 Hwf) Hh0) as Hpar.
  apply spec_for_range. intros j Hj.
  case_bool_decide; [|by apply spec_ret].
  intros s2 Hs2.
  destruct (lookup_lt_is_Some_2 (hdl_sensor_states_ s2) i) as [h2 Hh2].
  { rewrite (blank_length _ _ (layout_sensor_states _ _ Hs2)).
    eapply lookup_lt_Some, Hh0. }
  destruct (blank_lookup _ _ i h2 (layout_sensor_states _ _ Hs2) Hh2)
    as (h0' & Hh0' & Hb2).
  assert (h0' = h0) as -> by congruence.
  apply blank_eq in Hb2 as (_ & _ & _ & Hvalues2).
  rewrite (store_run _ _ i j _ s2 h2 Hh2)
    by (rewrite Hvalues2, <- Hpar, <- Hnames; exact Hj).
  by eapply same_layout_store_sensor_states.
Qed.

Lemma read_rest_frame s0 : invariant (status_and_log_of s0) read_rest.
Proof. unfold status_and_log_of. invariant_with member_leaf. Qed.

Lemma read_rest_run s :
  well_formed s →
  ∃ s', read_rest s = (Normal return_type.OK, s') ∧ status_and_log_of s s'.
Proof.
  intros Hwf.
  assert (Hruns : spec (eq s) read_rest (λ r _, r = return_type.OK) (λ _, False)).
  { unfold read_rest. intros ? <-.
    rewrite (bind_normal _ _ _ _ _ (CalcTransmissionToJoint_run s Hwf)).
    set (s1 := set_hdl_joint_states_ _ s). rewrite bind_gets.
    assert (Hlayout : same_layout s s1).
    { apply same_layout_joint_states, blank_imap. intros i h.
      case_decide; [|done]. by rewrite !blank_with_slot. }
    assert (Hsensors : spec (same_layout s)
              (for_each (hdl_gpio_sensor_states_ s1) ReadSensorData)
              (λ _, same_layout s) (λ _, False)).
    { apply spec_for_each. intros sensor _. by apply ReadSensorData_runs. }
    destruct (spec_run _ _ _ s1 Hsensors Hlayout) as ([] & s2 & Hrun & _).
    rewrite (bind_normal _ _ _ _ _ Hrun).
    by rewrite (bind_normal _ _ _ _ _ (call_run _ _ s2)). }
  destruct (spec_run _ _ _ s Hruns eq_refl) as (r & s' & Hrun & ->).
  exists s'. split; [done|].
  pose proof (invariant_run _ _ s (read_rest_frame s)) as Hframe.
  rewrite Hrun in Hframe. by apply Hframe.
Qed.

Lemma read_multi_run s :
  ∃ s1, read_multi s = (Normal (ReadMultiDxlData (dxl_comm_ s)).2.1, s1) ∧
        same_layout s s1 ∧ dxl_status_ s1 = dxl_status_ s ∧
        io_ s1 = io_ s ++ [io_ReadMultiDxlData (ReadMultiDxlData (dxl_comm_ s)).2.1] ∧
        dxl_comm_err_ s1 = dxl_comm_err_ s ∧ logger_ s1 = logger_ s.
Proof.
  unfold read_multi.
  rewrite (bind_normal _ _ _ _ _ (call_run _ _ s)), bind_modify. simpl.
  eexists. split; [reflexivity|]. simpl. split; [|done].
  constructor; simpl; try done.
  rewrite <- list_fmap_compose.
  apply list_fmap_ext. intros ? h _. apply blank_refresh.
Qed.

(** The bulk read, then [CheckError] on a transport failure: the status
    becomes CommError, the failure is logged and returned. *)
Lemma read_multi_CheckError_failure s e :
  (ReadMultiDxlData (dxl_comm_ s)).2.1 = e → e ≠ DxlError.OK →
  ∃ s1, (r ← read_multi; CheckError r) s = (Normal e, s1) ∧
        same_layout s s1 ∧ dxl_status_ s1 = COMM_ERROR ∧
        io_ s1 = io_ s ++ [io_ReadMultiDxlData e] ∧
        dxl_comm_err_ s1 = dxl_comm_err_ s ∧
        logger_ s1 = logger_ s ++ [ERROR_DxlError "Communication Fail --> " e].
Proof.
  intros He Hfail.
  destruct (read_multi_run s) as (s0 & Hread & Hlayout & Hst & Hio & Herr & Hlog).
  rewrite He in Hread, Hio.
  rewrite (bind_normal _ _ _ _ _ Hread).
  unfold CheckError. rewrite bool_decide_true by done.
  unfold log. rewrite !bind_modify. eexists. split; [reflexivity|]. simpl.
  rewrite Hio, Herr, Hlog.
  split; [|done]. destruct Hlayout. constructor; simpl; done.
Qed.

(** C9. With the communication status HardwareError, a transport failure of
    the bulk read does not make the read step fail: on a well-formed object
    it returns OK, the failure being logged and recorded in the communication
    status.  With the status Ok or CommError the same failure makes the step
    return ERROR. *)
Theorem read_transport_failure s e :
  (ReadMultiDxlData (dxl_comm_ s)).2.1 = e → e ≠ DxlError.OK →
  (dxl_status_ s = HW_ERROR → well_formed s →
     ∃ s', read s = (Normal return_type.OK, s') ∧
           dxl_status_ s' = COMM_ERROR ∧ dxl_comm_err_ s' = e ∧
           ERROR_DxlError "Dynamixel Read Fail :" e ∈ logger_ s') ∧
  (dxl_status_ s = DXL_OK ∨ dxl_status_ s = COMM_ERROR →
     ∃ s', read s = (Normal return_type.ERROR, s') ∧
           dxl_status_ s' = COMM_ERROR ∧ dxl_comm_err_ s' = e ∧
           io_ s' = io_ s ++ [io_ReadMultiDxlData e]).
Proof.
  intros He Hfail.
  destruct (read_multi_CheckError_failure s e He Hfail)
    as (s1 & Hbulk & Hlayout & Hstatus & Hio & _ & Hlog).
  split.
  - intros Hs Hwf. unfold read. rewrite bind_gets, Hs.
    rewrite (bind_normal _ _ _ _ _ Hbulk), bind_modify.
    rewrite bool_decide_true by done. unfold log. rewrite bind_modify.
    set (s2 := set_logger_ _ _).
    assert (Hwf2 : well_formed s2).
    { eapply well_formed_layout; [|exact Hwf].
      destruct Hlayout. constructor; simpl; assumption. }
    destruct (read_rest_run s2 Hwf2) as (s' & Hrun & Hst & Herr & Hlines).
    exists s'. split; [exact Hrun|]. rewrite Hst, Herr, Hlines. simpl.
    split; [done|]. split; [done|]. set_solver.
  - intros Hs.
    assert (Hread : read s
      = (e ← (r ← read_multi; CheckError r);
         modify (set_dxl_comm_err_ e);;
         if bool_decide (e ≠ DxlError.OK) then
           log (ERROR_DxlError "Dynamixel Read Fail :" e);;
           mret return_type.ERROR
         else read_rest) s).
    { unfold read. rewrite bind_gets. by destruct Hs as [->| ->]. }
    rewrite Hread, (bind_normal _ _ _ _ _ Hbulk), bind_modify.
    rewrite bool_decide_true by done. unfold log. rewrite bind_modify.
    eexists. split; [reflexivity|]. simpl. done.
Qed.

End ReadClaims.

(** ** Reboot recovery *)

Section Recovery.
Context {Link : Type} {link : ActuatorLink Link} {header : Header}.
Implicit Types (s : DynamixelHardware Link).

(** *** What [CheckError] does to the communication status *)

Lemma check_hardware_error_classified status h j error_state :
  spec (classified (Link:=Link) status error_state) (check_hardware_error h j error_state)
    (classified (Link:=Link) status) (λ _, True).
Proof.
  unfold check_hardware_error. case_bool_decide; [|by apply spec_ret].
  apply spec_bind_at_any; [|done]. intros d.
  apply (spec_bind _ _ _ (λ _, classified (Link:=Link) status error_state)).
  { destruct (double_to_uint8 d); [by apply spec_ret|by apply spec_throw]. }
  intros hw. apply (spec_bind _ _ _ (λ _, classified (Link:=Link) status error_state)).
  { apply spec_modify. intros s Hs. exact Hs. }
  intros _. simpl. case_bool_decide; [|by apply spec_ret].
  apply (spec_bind _ _ _ (λ _ _, True)); [by apply spec_modify|]. intros _.
  apply (spec_bind _ _ _ (λ _ s, dxl_status_ s = HW_ERROR));
    [by apply spec_modify|]. intros _.
  apply spec_ret. intros s Hs. by right.
Qed.

(** *** The clock and the status during the attempts *)

Lemma reset_attempt_clock s :
  (now_us s + 200 * 1000 ≤ now_us (reset_attempt s).2)%Z.
Proof.
  unfold reset_attempt, usleep. rewrite bind_modify.
  match goal with
  | |- context [?m (set_now_us ?t s)] =>
      apply (invariant_run (λ s', (now_us s + 200 * 1000 ≤ now_us s')%Z) m)
  end; [|simpl; lia].
  invariant_with ltac:(simpl; lia).
Qed.

Lemma reset_attempt_status status :
  invariant (λ s, dxl_status_ s = status) reset_attempt.
Proof. invariant_with member_leaf. Qed.

(** What the loop of [CommReset] returns, given fuel for the passes that can
    still begin within the window. *)
Lemma CommReset_loop_outcome fuel start_time s :
  1 ≤ fuel →
  (reset_window_us ≤ now_us s - start_time + 200 * 1000 * (Z.of_nat fuel - 1))%Z →
  match CommReset_loop fuel start_time s with
  | (Normal None, _) => False
  | (Normal (Some false), s') =>
      dxl_status_ s' = dxl_status_ s ∧ (reset_window_us ≤ now_us s' - start_time)%Z
  | (Normal (Some true), s') => dxl_status_ s' = DXL_OK
  | (Thrown _, _) => True
  end.
Proof.
  revert s. induction fuel as [|fuel IH]; intros s Hfuel Hwindow; [lia|].
  simpl. rewrite bind_gets. case_bool_decide as Hin.
  - pose proof (reset_attempt_clock s) as Hclock.
    pose proof (invariant_run _ _ s (reset_attempt_status (dxl_status_ s)) eq_refl)
      as Hstatus.
    destruct (reset_attempt s) as [[[]|e] s1] eqn:Hattempt.
    + rewrite (bind_normal _ _ _ _ _ Hattempt).
      unfold log, usleep. rewrite !bind_modify.
      set (s2 := set_now_us _ _). destruct (start s2) as [[r|e] s3] eqn:Hstart.
      * rewrite (bind_normal _ _ _ _ _ Hstart), bind_modify. reflexivity.
      * by rewrite (bind_thrown _ _ _ _ _ Hstart).
    + rewrite (bind_normal _ _ _ _ _ Hattempt). simpl in Hclock, Hstatus.
      specialize (IH s1).
      destruct (CommReset_loop fuel start_time s1) as [[[[]|]|e] s2].
      * apply IH; lia.
      * rewrite <- Hstatus. apply IH; lia.
      * apply IH; lia.
      * done.
    + by rewrite (bind_thrown _ _ _ _ _ Hattempt).
  - split; [done|lia].
Qed.

(** [CommReset] up to its loop: the status is Rebooting, the clock has not
    gone back, and the loop starts with the time it reads. *)
Lemma CommReset_prologue s :
  ∃ s1, CommReset s
        = (r ← CommReset_loop reset_fuel (now_us s1);
           match r with
           | Some true => mret (Some true)
           | Some false =>
               log (ERROR_STREAM "RESET Failure");;
               usleep (1000 * 1000);;
               start;;
               mret (Some false)
           | None => mret None
           end) s1 ∧
        dxl_status_ s1 = REBOOTING ∧ (now_us s ≤ now_us s1)%Z.
Proof.
  unfold CommReset, stop.
  rewrite bind_modify, bind_assoc, bind_gets, bind_assoc, bind_call,
    bind_assoc, bind_log, bind_ret, bind_log, bind_call, bind_gets.
  eexists. split; [reflexivity|]. simpl. split; [done|lia].
Qed.

(** *** What [CheckError] finds *)

Lemma hardware_error_found_of s0 s :
  hdl_trans_states_ s = hdl_trans_states_ s0 →
  num_of_transmissions_ s = num_of_transmissions_ s0 →
  hardware_error_found s ↔ hardware_error_found s0.
Proof.
  intros Ht Hn. unfold hardware_error_found, hardware_error_at. by rewrite Ht, Hn.
Qed.

Lemma check_hardware_error_scanned s0 i h j error_state :
  hdl_trans_states_ s0 !! i = Some h → i < num_of_transmissions_ s0 →
  spec (scanned s0 i j error_state) (check_hardware_error h j error_state)
    (scanned s0 i (S j)) (λ _, True).
Proof.
  intros Hh Hi s (Ht & Hn & Hscan). unfold check_hardware_error.
  assert (Hnext : ¬ hardware_error_at s0 i j →
                  scanned s0 i (S j) error_state s).
  { intros Hno. split; [done|]. split; [done|].
    destruct Hscan as [(-> & Hrows & Hslots)|Hfound]; [left|by right].
    split; [done|]. split; [done|]. intros j' Hj'.
    destruct (decide (j' = j)) as [->|]; [done|]. apply Hslots. lia. }
  case_bool_decide as Hname.
  - unfold at_. destruct (value_ptr_vec h !! j) as [d|] eqn:Hd;
      [|by rewrite (bind_thrown _ _ _ out_of_range s)].
    rewrite bind_ret.
    destruct (double_to_uint8 d) as [hw|] eqn:Hconv;
      [|by rewrite (bind_thrown _ _ _ undefined_conversion s)].
    rewrite bind_ret, bind_modify. cbv zeta. case_bool_decide as Hflag.
    + rewrite bind_log, bind_modify. simpl.
      split; [done|]. split; [done|]. right. split; [done|].
      exists i, j. split; [done|]. by exists h, d, hw.
    + simpl. destruct Hnext as (_ & _ & Hnext).
      { intros (h' & d' & hw' & Hh' & _ & Hd' & Hconv' & Hflag').
        rewrite Hh in Hh'. injection Hh' as <-.
        rewrite Hd in Hd'. injection Hd' as <-.
        rewrite Hconv in Hconv'. injection Hconv' as <-.
        first [done|by apply Hflag]. }
      split; [done|]. split; [done|]. exact Hnext.
  - simpl. apply Hnext.
    intros (h' & d' & hw' & Hh' & Hname' & _).
    rewrite Hh in Hh'. injection Hh' as <-. done.
Qed.

(** [CheckError] after a bulk read that succeeded: it returns the hardware
    error exactly when a transmission reports one, and leaves the status
    HardwareError then and as it was otherwise. *)
Lemma CheckError_found s0 :
  spec (eq s0) (CheckError DxlError.OK)
    (λ r s, hdl_trans_states_ s = hdl_trans_states_ s0 ∧
            num_of_transmissions_ s = num_of_transmissions_ s0 ∧
            ((r = DxlError.OK ∧ ¬ hardware_error_found s0 ∧
              dxl_status_ s = dxl_status_ s0) ∨
             (r = DxlError.DLX_HARDWARE_ERROR ∧ hardware_error_found s0 ∧
              dxl_status_ s = HW_ERROR)))
    (λ _, True).
Proof.
  unfold CheckError. rewrite bool_decide_eq_false_2 by (by intros ?).
  apply spec_bind_gets. intros nt.
  apply (spec_bind _ _ _
           (λ error_state s, scanned s0 (num_of_transmissions_ s0) 0 error_state s ∧
                             classified (dxl_status_ s0) error_state s)).
  { apply (spec_conseq _
             (λ s, nt = num_of_transmissions_ s0 ∧
                   (scanned s0 0 0 DxlError.OK s ∧
                    classified (dxl_status_ s0) DxlError.OK s)) _ _
             (λ error_state s, scanned s0 (num_of_transmissions_ s0) 0 error_state s ∧
                               classified (dxl_status_ s0) error_state s)
             _ (λ _, True)); [|intros s [<- <-]|auto|auto].
    - apply spec_pure. intros ->.
      apply (spec_fold_range_count
               (λ i error_state s, scanned s0 i 0 error_state s ∧
                                   classified (dxl_status_ s0) error_state s)).
      intros i error_state Hi. apply spec_bind_gets. intros v.
      apply (spec_conseq _
               (λ s, v = hdl_trans_states_ s0 ∧
                     (scanned s0 i 0 error_state s ∧
                      classified (dxl_status_ s0) error_state s)) _ _
               (λ error_state s, scanned s0 (S i) 0 error_state s ∧
                                 classified (dxl_status_ s0) error_state s)
               _ (λ _, True));
        [|intros s [[Hscan Hclass] <-]; split; [apply Hscan|done]|auto|auto].
      apply spec_pure. intros ->.
      destruct (hdl_trans_states_ s0 !! i) as [h|] eqn:Hh.
      + apply (spec_bind_at _ _ _ h); [done|].
        apply (spec_conseq _
                 (λ s, scanned s0 i 0 error_state s ∧
                       classified (dxl_status_ s0) error_state s) _ _
                 (λ error_state s,
                    scanned s0 i (length (interface_name_vec h)) error_state s ∧
                    classified (dxl_status_ s0) error_state s)
                 _ (λ _, True)); [|auto| |auto].
        * apply (spec_fold_range_count
                   (λ j error_state s, scanned s0 i j error_state s ∧
                                       classified (dxl_status_ s0) error_state s)).
          intros j error_state' Hj.
          eapply spec_conseq;
            [apply (spec_and _ _ _ _ _ _ _
                      (check_hardware_error_scanned s0 i h j error_state' Hh Hi)
                      (check_hardware_error_classified (dxl_status_ s0) h j
                         error_state'))
            |auto|auto|auto].
        * intros error_state' s [(Ht & Hn & Hscan) Hclass]. split; [|done].
          split; [done|]. split; [done|].
          destruct Hscan as [(-> & Hrows & Hslots)|Hfound]; [left|by right].
          split; [done|]. split; [|intros j' Hj'; lia].
          intros i' j' Hi'. destruct (decide (i' = i)) as [->|]; [|apply Hrows; lia].
          intros Hat. apply (Hslots j'); [|done].
          destruct Hat as (h' & d & hw & Hh' & Hname & _).
          rewrite Hh in Hh'. injection Hh' as <-.
          by eapply lookup_lt_Some.
      + intros s _. unfold mbind, M_bind, at_. by rewrite Hh.
    - split; [done|]. split; [|by left]. split; [done|]. split; [done|]. left.
      split; [done|]. split; intros; lia. }
  intros error_state. apply spec_bind_gets_pure. intros nj _.
  apply (spec_bind _ _ _
           (λ _ s, scanned s0 (num_of_transmissions_ s0) 0 error_state s ∧
                   classified (dxl_status_ s0) error_state s)).
  { apply invariant_spec. unfold scanned, classified. invariant_with member_leaf. }
  intros _. apply spec_ret. intros s [(Ht & Hn & Hscan) Hclass].
  split; [done|]. split; [done|].
  destruct Hscan as [(-> & Hrows & _)|[-> Hfound]].
  - left. split; [done|]. split.
    + intros (i & j & Hi & Hat). by apply (Hrows i j).
    + by destruct Hclass as [[_ ?]|[? _]].
  - right. split; [done|]. split; [done|].
    by destruct Hclass as [[? _]|[_ ?]].
Qed.

(** *** What [start] leaves *)

Lemma start_rest_frame s0 status e :
  invariant (λ s, (hdl_trans_states_ s = hdl_trans_states_ s0 ∧
                   num_of_transmissions_ s = num_of_transmissions_ s0) ∧
                  dxl_status_ s = status ∧ dxl_comm_err_ s = e)
    (CalcTransmissionToJoint;;
     sync_joint_commands (λ x, x * 180 / 3.141592)%float;;
     usleep (500 * 1000);;
     ids ← gets dxl_id_;
     call (DynamixelEnable ids) (λ _, io_DynamixelEnable ids);;
     log (INFO_STREAM "Dynamixel Hardware Start!");;
     mret CallbackReturn.SUCCESS).
Proof. invariant_with member_leaf. Qed.

(** [start] by the answer of the link to its bulk read: a failure leaves
    CommError; after a bulk read that succeeds, a hardware error in the slots
    just read leaves HardwareError, and without one the status is left as it
    was. *)
Lemma start_outcome s0 :
  spec (eq s0) start
    (λ _ s,
       ((ReadMultiDxlData (dxl_comm_ s0)).2.1 ≠ DxlError.OK ∧
        dxl_status_ s = COMM_ERROR ∧
        dxl_comm_err_ s = (ReadMultiDxlData (dxl_comm_ s0)).2.1) ∨
       ((ReadMultiDxlData (dxl_comm_ s0)).2.1 = DxlError.OK ∧
        hardware_error_found s ∧ dxl_status_ s = HW_ERROR ∧
        dxl_comm_err_ s = DxlError.DLX_HARDWARE_ERROR) ∨
       ((ReadMultiDxlData (dxl_comm_ s0)).2.1 = DxlError.OK ∧
        ¬ hardware_error_found s ∧ dxl_status_ s = dxl_status_ s0 ∧
        dxl_comm_err_ s = DxlError.OK))
    (λ _, True).
Proof.
  intros ? <-. unfold start.
  destruct (decide ((ReadMultiDxlData (dxl_comm_ s0)).2.1 = DxlError.OK)) as [He|He].
  - destruct (read_multi_run s0) as (s1 & Hread & _ & Hst & _).
    rewrite bind_assoc, (bind_normal _ _ _ _ _ Hread), He.
    pose proof (CheckError_found s1 s1 eq_refl) as Hcheck.
    destruct (CheckError DxlError.OK s1) as [[r|?] s2] eqn:Hrun;
      [|by rewrite (bind_thrown _ _ _ _ _ Hrun)].
    rewrite (bind_normal _ _ _ _ _ Hrun), bind_modify.
    destruct Hcheck as (Ht & Hn & [(-> & Hno & Hs)|(-> & Hfound & Hs)]).
    + rewrite bool_decide_eq_false_2 by (by intros ?).
      pose proof (start_rest_frame s1 (dxl_status_ s0) DxlError.OK) as Hrest.
      match type of Hrest with
      | invariant _ ?m =>
          apply (invariant_run _ m (set_dxl_comm_err_ DxlError.OK s2)) in Hrest;
            [|simpl; split; [done|]; split; [congruence|done]];
          destruct (m (set_dxl_comm_err_ DxlError.OK s2)) as [[r|?] s4]; [|done]
      end.
      destruct Hrest as ([Ht4 Hn4] & Hs4 & He4).
      right. right. split; [done|]. split; [|done].
      by rewrite (hardware_error_found_of s1 s4 Ht4 Hn4).
    + rewrite bool_decide_eq_true_2 by done. rewrite bind_log. simpl.
      right. left. split; [done|]. split; [|done].
      by apply (hardware_error_found_of s1); simpl.
  - destruct (read_multi_CheckError_failure s0 _ eq_refl He)
      as (s1 & Hbulk & _ & Hs & _).
    rewrite (bind_normal _ _ _ _ _ Hbulk), bind_modify.
    rewrite bool_decide_eq_true_2 by done. rewrite bind_log. simpl.
    left. done.
Qed.

(** *** The ticks after a failed recovery *)

Lemma ticks_refused s ticks :
  dxl_status_ s = REBOOTING →
  run_ticks ticks s = (Normal (replicate (length ticks) return_type.ERROR), s).
Proof.
  intros Hs. induction ticks as [|t ticks IH]; simpl; [done|].
  assert (Htick : tick t s = (Normal return_type.ERROR, s)).
  { destruct t; simpl; [unfold read|unfold write]; by rewrite bind_gets, Hs. }
  by rewrite (bind_normal _ _ _ _ _ Htick), (bind_normal _ _ _ _ _ IH).
Qed.


End Recovery.

(** ** The torque service *)

Section Service.
Context {Link : Type} {link : ActuatorLink Link} {header : Header}.
Implicit Types (s : DynamixelHardware Link).

(** C6. A request to enable when the torque status is already Enabled, and a
    request to disable when it is already Disabled, succeed at once: the
    response is a success, and the object, the link and the trace of calls
    are as they were, so no enable or disable call was made and the torque
    status has not changed; whatever the control thread does meanwhile
    ([polls]) plays no part. *)
Theorem set_torque_already_there s polls :
  (dxl_torque_status_ s = TORQUE_ENABLED →
     set_dxl_torque_srv_callback true polls s
     = (Normal {| success := true; message := "Already enabled." |}, s)) ∧
  (dxl_torque_status_ s = TORQUE_DISABLED →
     set_dxl_torque_srv_callback false polls s
     = (Normal {| success := true; message := "Already disabled." |}, s)).
Proof.
  split; intros Hs; unfold set_dxl_torque_srv_callback;
    rewrite bind_gets, Hs; reflexivity.
Qed.

End Service.

(** ** The hardware error bits *)

Lemma bytes_spec (hw : Z) : (0 ≤ hw < 256)%Z → hw ∈ bytes.
Proof.
  intros Hhw. unfold bytes. apply list_elem_of_fmap.
  exists (Z.to_nat hw). split; [lia|]. apply elem_of_seq. lia.
Qed.

(** What the code does with a byte: every cause whose bit is set is in the
    list, and the list is empty exactly when none of the bits 0 to 5 is
    set. *)
Lemma error_string_of_causes (hw : Z) :
  (0 ≤ hw < 256)%Z →
  Forall (λ c, Z.land hw c.1 ≠ 0%Z → reported c.2 (error_string_of hw) = true)
    cause_bits ∧
  (error_string_of hw = "" ↔ Z.land hw 0x3F = 0%Z).
Proof.
  intros Hhw%bytes_spec. revert hw Hhw. apply Forall_forall.
  assert (Hall : forallb (λ hw,
      forallb (λ c, bool_decide (Z.land hw c.1 ≠ 0%Z → reported c.2 (error_string_of hw) = true))
        cause_bits
      && bool_decide (error_string_of hw = "" ↔ Z.land hw 0x3F = 0%Z)) bytes = true)
    by (vm_compute; reflexivity).
  apply Forall_forall. intros hw Hin.
  rewrite forallb_forall in Hall.
  specialize (Hall hw (proj1 (list_elem_of_In _ _) Hin)).
  apply andb_prop in Hall as [Hcauses Hempty]. split.
  - apply Forall_forall. intros c Hc. rewrite forallb_forall in Hcauses.
    specialize (Hcauses c (proj1 (list_elem_of_In _ _) Hc)).
    by apply bool_decide_eq_true_1 in Hcauses.
  - by apply bool_decide_eq_true_1 in Hempty.
Qed.

(** C4. What the code does where the claim fails.  Actuator 5 reports the
    byte 2 in its Hardware Error Status register: bit 1, the bit of none of
    the five causes.  After a bulk read that succeeds, [CheckError] sets the
    communication status to HardwareError, returns the hardware error and
    logs the causes electrical short and overload for the actuator. *)
Theorem CheckError_flags_unused_bit :
  Forall (λ c, Z.land 2 c.1 = 0%Z) cause_bits ∧
  ((e ← read_multi; CheckError e) (robot_faulty 2)).1
    = Normal DxlError.DLX_HARDWARE_ERROR ∧
  dxl_status_ ((e ← read_multi; CheckError e) (robot_faulty 2)).2 = HW_ERROR ∧
  dxl_hw_err_ ((e ← read_multi; CheckError e) (robot_faulty 2)).2 !! 5%Z = Some 2%Z ∧
  logger_ ((e ← read_multi; CheckError e) (robot_faulty 2)).2
    = [WARN_HardwareErrorStates 5 2 "electrical shork/ Overload/ "].
Proof.
  split; [repeat constructor|]. vm_compute. repeat split.
Qed.

(** * The claims on the two-joint robot *)

Lemma robot_well_formed link status torque_status :
  well_formed (Bench.robot link status torque_status).
Proof.
  constructor; simpl; repeat constructor; unfold parallel; simpl; lia.
Qed.

Example weighted_sum_example :
  weighted_sum (Bench.matrix [[1; 0.5]; [0; 2]]%float 0)
    (λ j, default 0%float ([1.5; 2]%float !! j)) 2 = 2.5%float.
Proof. reflexivity. Qed.



(** C2: with the status CommError the write step is refused. *)
Lemma write_refused_in_comm_error :
  dxl_status_ robot_comm_error = COMM_ERROR ∧
  write robot_comm_error = (Normal return_type.ERROR, robot_comm_error).
Proof. split; reflexivity. Qed.

Lemma write_gate_witness :
  write robot_rebooting = (Normal return_type.ERROR, robot_rebooting) ∧
  ∃ s' state,
    write robot_limp = (Normal return_type.OK, s') ∧
    io_ s' = [io_WriteItemBuf; io_DynamixelEnable [5; 6]%Z;
              io_GetDxlTorqueState state;
              io_WriteMultiDxlData (hdl_trans_commands_ s')] ∧
    (dxl_torque_status_ s' = TORQUE_ENABLED ∨
     dxl_torque_status_ s' = TORQUE_DISABLED) ∧
    ∀ i, i < 2 → slot 0 (hdl_trans_commands_ s') i = transmission_value s' i.
Proof.
  split.
  - apply (proj1 (write_gate robot_rebooting)). by left.
  - destruct (proj2 (write_gate robot_limp) ltac:(by left)
                (robot_well_formed _ _ _)) as (s' & state & Hrun & Hio & Ht & Hmap).
    exists s', state. split; [exact Hrun|]. split; [exact Hio|].
    split; [exact Ht|].
    intros i Hi. apply Hmap.
    assert (Hn : num_of_transmissions_ s' = 2).
    { apply (f_equal (λ r, num_of_transmissions_ r.2)) in Hrun.
      simpl in Hrun. rewrite <- Hrun. vm_compute. reflexivity. }
    rewrite Hn. exact Hi.
Defined.

(** C3: the joints are commanded through position and velocity.  The step
    resynchronises the position command and leaves the velocity command of
    joint1 at 7 while the velocity state is 0.75. *)
Lemma velocity_command_not_resynced :
  dxl_torque_status_ robot_requested = REQUESTED_TO_ENABLE ∧
  (ChangeDxlTorqueState robot_requested).1 = Normal tt ∧
  ¬ all_interfaces_synced (ChangeDxlTorqueState robot_requested).2.
Proof.
  split; [reflexivity|]. split; [reflexivity|]. intros Hall.
  specialize (Hall (Bench.joint_state "joint1" 0.5 0.75 0)
                   (Bench.joint_command "joint1" 0.5 7) 1 1 "velocity").
  assert (Heq : Some 7%float = Some 0.75%float).
  { apply Hall; try reflexivity.
    - apply list_elem_of_In. vm_compute. by left.
    - apply list_elem_of_In. vm_compute. by left. }
  apply (f_equal (λ o, match o with
                       | Some x => PrimFloat.eqb x 7
                       | None => false
                       end)) in Heq.
  vm_compute in Heq. discriminate.
Qed.

Lemma torque_request_resyncs_first_interface_witness :
  ∃ s' state,
    ChangeDxlTorqueState robot_requested = (Normal tt, s') ∧
    io_ s' = [io_DynamixelEnable [5; 6]%Z; io_GetDxlTorqueState state] ∧
    synced (hdl_joint_states_ robot_requested)
      (Bench.joint_command "joint1" 3 7)
      (default (Bench.joint_command "" 0 0) (hdl_joint_commands_ s' !! 0)).
Proof.
  destruct (torque_request_resyncs_first_interface robot_requested
              (robot_well_formed _ _ _) ltac:(by left))
    as (s' & state & Hrun & Hio & _ & Hsync).
  exists s', state. split; [exact Hrun|]. split; [exact Hio|].
  destruct (Hsync 0 (Bench.joint_command "joint1" 3 7) eq_refl)
    as (cmd' & -> & Hmatched & _).
  apply Hmatched. exists (Bench.joint_state "joint1" 0.5 0.75 0), 0.
  split; [apply list_elem_of_In; by left|].
  split; [reflexivity|]. by exists "position".
Defined.

(** C5: actuator 6 has its torque off and nothing is requested; and the
    torque is enabled on request. *)
Lemma torque_status_after_query_witness :
  (∃ s', ChangeDxlTorqueState robot_disabled = (Normal tt, s')) ∧
  dxl_torque_state_ (ChangeDxlTorqueState robot_disabled).2
    = (GetDxlTorqueState (link_at_query robot_disabled)).2 ∧
  dxl_torque_status_ (ChangeDxlTorqueState robot_disabled).2 = TORQUE_DISABLED ∧
  dxl_torque_status_ (ChangeDxlTorqueState robot_limp).2 = TORQUE_ENABLED.
Proof.
  assert (Hrun : ChangeDxlTorqueState robot_disabled
            = (Normal tt, (ChangeDxlTorqueState robot_disabled).2))
    by (vm_compute; reflexivity).
  assert (Hrun' : ChangeDxlTorqueState robot_limp
            = (Normal tt, (ChangeDxlTorqueState robot_limp).2))
    by (vm_compute; reflexivity).
  assert (Hoff : (GetDxlTorqueState (link_at_query robot_disabled)).2 !! 6%Z
                 = Some false)
    by (vm_compute; reflexivity).
  assert (Hon : map_Forall (λ _ on, on = true)
                  (GetDxlTorqueState (link_at_query robot_limp)).2).
  { apply map_Forall_to_list.
    assert (Hlist : map_to_list (GetDxlTorqueState (link_at_query robot_limp)).2
                    = [(5%Z, true); (6%Z, true)]) by (vm_compute; reflexivity).
    rewrite Hlist. repeat constructor. }
  split; [apply (proj1 (torque_status_after_query robot_disabled)),
            robot_well_formed|].
  destruct (proj2 (torque_status_after_query robot_disabled) _ Hrun)
    as (_ & Hstate & _ & _ & Hdisabled).
  destruct (proj2 (torque_status_after_query robot_limp) _ Hrun')
    as (_ & _ & _ & Henabled & _).
  split; [exact Hstate|]. split.
  - apply Hdisabled. by exists 6%Z.
  - by apply Henabled.
Defined.

Lemma set_torque_already_there_witness :
  set_dxl_torque_srv_callback true [] robot_ok
    = (Normal {| success := true; message := "Already enabled." |}, robot_ok) ∧
  set_dxl_torque_srv_callback false [TORQUE_ENABLED] robot_disabled
    = (Normal {| success := true; message := "Already disabled." |}, robot_disabled).
Proof.
  split.
  - apply (proj1 (set_torque_already_there robot_ok [])). reflexivity.
  - apply (proj2 (set_torque_already_there robot_disabled [TORQUE_ENABLED])).
    reflexivity.
Defined.

Lemma read_attempts_bulk_read_witness :
  read robot_rebooting = (Normal return_type.ERROR, robot_rebooting) ∧
  made [io_ReadMultiDxlData DxlError.OK] (read robot_ok).2 ∧
  made [io_ReadMultiDxlData (DxlError.LINK_FAIL (-11))]
       (read (robot_unplugged HW_ERROR)).2.
Proof.
  split; [|split].
  - apply (proj1 (read_attempts_bulk_read robot_rebooting)). reflexivity.
  - pose proof (proj2 (read_attempts_bulk_read robot_ok) ltac:(discriminate))
      as Hmade.
    exact Hmade.
  - pose proof (proj2 (read_attempts_bulk_read (robot_unplugged HW_ERROR))
                  ltac:(discriminate)) as Hmade.
    exact Hmade.
Defined.

Lemma robot_moving_well_formed : well_formed robot_moving.
Proof.
  constructor; simpl; repeat constructor; unfold parallel; simpl; lia.
Qed.

(** C8: velocity commands of 7 and 9, or of 1000 and -1000, give the same
    transmission commands, and the velocity channel of the transmission
    commands is not the sum over the velocity commands. *)
Lemma velocity_commands_not_mapped :
  slot 1 (hdl_joint_commands_ robot_ok) 0 = 7%float ∧
  slot 1 (hdl_joint_commands_ robot_fast) 0 = 1000%float ∧
  (CalcJointToTransmission robot_ok).1 = Normal tt ∧
  (CalcJointToTransmission robot_fast).1 = Normal tt ∧
  hdl_trans_commands_ (CalcJointToTransmission robot_ok).2
    = hdl_trans_commands_ (CalcJointToTransmission robot_fast).2 ∧
  ¬ inverse_maps_channel robot_ok (CalcJointToTransmission robot_ok).2 1.
Proof.
  split; [reflexivity|]. split; [reflexivity|].
  split; [vm_compute; reflexivity|]. split; [vm_compute; reflexivity|].
  split; [vm_compute; reflexivity|]. intros Hall.
  specialize (Hall 0 ltac:(simpl; lia)).
  apply (f_equal (λ x, PrimFloat.eqb x 0)) in Hall.
  vm_compute in Hall. discriminate.
Qed.

Lemma kinematic_mapping_witness :
  CalcTransmissionToJoint robot_moving
    = (Normal tt,
       set_hdl_joint_states_ (joints_mapped_all robot_moving) robot_moving) ∧
  CalcJointToTransmission robot_moving
    = (Normal tt,
       set_hdl_trans_commands_ (transmissions_mapped robot_moving) robot_moving) ∧
  slot 0 (joints_mapped_all robot_moving) 0 = 2.5%float ∧
  slot 1 (joints_mapped_all robot_moving) 0 = 0.25%float ∧
  slot 2 (joints_mapped_all robot_moving) 1 = 8%float ∧
  slot 3 (joints_mapped_all robot_moving) 0 = slot 3 (hdl_joint_states_ robot_moving) 0 ∧
  slot 0 (transmissions_mapped robot_moving) 0 = 2%float ∧
  transmissions_mapped
    (set_hdl_joint_commands_ (hdl_joint_commands_ robot_fast) robot_moving)
  = transmissions_mapped robot_moving.
Proof.
  destruct (kinematic_mapping robot_moving robot_moving_well_formed)
    as (Hforward & Hinverse & Hjoint & Hkept & Htrans & _ & Hfirst).
  split; [exact Hforward|]. split; [exact Hinverse|].
  split; [rewrite Hjoint by (simpl; lia); vm_compute; reflexivity|].
  split; [rewrite Hjoint by (simpl; lia); vm_compute; reflexivity|].
  split; [rewrite Hjoint by (simpl; lia); vm_compute; reflexivity|].
  split; [apply Hkept; lia|].
  split; [rewrite Htrans by (simpl; lia); vm_compute; reflexivity|].
  apply Hfirst. intros j Hj. simpl in Hj.
  destruct j as [|[|j]]; [reflexivity|reflexivity|lia].
Defined.

Lemma read_transport_failure_witness :
  (∃ s', read (robot_unplugged HW_ERROR) = (Normal return_type.OK, s') ∧
         dxl_status_ s' = COMM_ERROR) ∧
  (∃ s', read (robot_unplugged DXL_OK) = (Normal return_type.ERROR, s') ∧
         dxl_status_ s' = COMM_ERROR).
Proof.
  assert (Hfail : DxlError.LINK_FAIL (-11) ≠ DxlError.OK) by discriminate.
  split.
  - assert (Hbus : (ReadMultiDxlData (dxl_comm_ (robot_unplugged HW_ERROR))).2.1
                   = DxlError.LINK_FAIL (-11)) by reflexivity.
    assert (Hstatus : dxl_status_ (robot_unplugged HW_ERROR) = HW_ERROR)
      by reflexivity.
    destruct (proj1 (read_transport_failure (robot_unplugged HW_ERROR)
                       (DxlError.LINK_FAIL (-11)) Hbus Hfail)
                Hstatus (robot_well_formed _ _ _)) as (s' & Hrun & Hs & _).
    by exists s'.
  - assert (Hbus : (ReadMultiDxlData (dxl_comm_ (robot_unplugged DXL_OK))).2.1
                   = DxlError.LINK_FAIL (-11)) by reflexivity.
    assert (Hstatus : dxl_status_ (robot_unplugged DXL_OK) = DXL_OK)
      by reflexivity.
    destruct (proj2 (read_transport_failure (robot_unplugged DXL_OK)
                       (DxlError.LINK_FAIL (-11)) Hbus Hfail)
                (or_introl Hstatus)) as (s' & Hrun & Hs & _).
    by exists s'.
Defined.

(** C10: a request to enable is pending while the communication status is
    CommError; the write tick is refused and the request stays. *)
Lemma torque_request_survives_refused_write :
  dxl_status_ robot_pending_comm_error = COMM_ERROR ∧
  dxl_torque_status_ robot_pending_comm_error = REQUESTED_TO_ENABLE ∧
  (write robot_pending_comm_error).1 = Normal return_type.ERROR ∧
  dxl_torque_status_ (write robot_pending_comm_error).2 = REQUESTED_TO_ENABLE.
Proof. repeat split; reflexivity. Qed.

Lemma torque_status_settles_witness :
  (∃ s', ChangeDxlTorqueState robot_limp = (Normal tt, s')) ∧
  (dxl_torque_status_ (ChangeDxlTorqueState robot_limp).2 = TORQUE_ENABLED ∨
   dxl_torque_status_ (ChangeDxlTorqueState robot_limp).2 = TORQUE_DISABLED) ∧
  dxl_torque_status_ (ChangeDxlTorqueState (robot_unplugged DXL_OK)).2
    = TORQUE_ENABLED ∧
  (∃ s', write robot_limp = (Normal return_type.OK, s') ∧
         (dxl_torque_status_ s' = TORQUE_ENABLED ∨
          dxl_torque_status_ s' = TORQUE_DISABLED)) ∧
  write robot_pending_comm_error
    = (Normal return_type.ERROR, robot_pending_comm_error).
Proof.
  assert (Hrun : ChangeDxlTorqueState robot_limp
            = (Normal tt, (ChangeDxlTorqueState robot_limp).2))
    by (vm_compute; reflexivity).
  assert (Hrun' : ChangeDxlTorqueState (robot_unplugged DXL_OK)
            = (Normal tt, (ChangeDxlTorqueState (robot_unplugged DXL_OK)).2))
    by (vm_compute; reflexivity).
  assert (Hempty : (GetDxlTorqueState (link_at_query (robot_unplugged DXL_OK))).2 = ∅)
    by reflexivity.
  split; [apply (proj1 (torque_status_settles robot_limp)), robot_well_formed|].
  split; [exact (proj1 (proj1 (proj2 (torque_status_settles robot_limp)) _ Hrun))|].
  split; [exact (proj2 (proj1 (proj2 (torque_status_settles (robot_unplugged DXL_OK)))
                          _ Hrun') Hempty)|].
  split.
  - apply (proj1 (proj2 (proj2 (torque_status_settles robot_limp))));
      [by left|apply robot_well_formed].
  - apply (proj2 (proj2 (proj2 (torque_status_settles robot_pending_comm_error)))).
    by left.
Defined.
